(** * Ferko schedule auto-fill: a shallow embedding of the userscript

    The development follows [src/userscripts/ferko-schedule-autofill.js]:
    JavaScript strings are sequences of UTF-16 code units, the schedule
    parser is a function over them that may throw, the host page is an
    abstract interface (document tree, clock, click and timer
    behaviour) and the batch processor is a state-passing function over
    that interface.  An exception thrown inside the [try] of the
    processor ends in its [catch], as in the code.  Console output and
    the construction of the control panel ([createUI]) are left out;
    the click handler of its process button is modelled. *)

From Stdlib Require Import String Ascii.
From Stdlib Require Import List NArith ZArith Bool Arith Lia.
Import ListNotations.

(* ================================================================== *)
(** * JavaScript strings                                                *)
(* ================================================================== *)

(** A JavaScript string is a sequence of UTF-16 code units. *)
Definition jsstring := list N.

(** ASCII literals, for readable examples. *)
Definition js (s : string) : jsstring :=
  map N_of_ascii (list_ascii_of_string s).

Definition TAB : N := 9.
Definition LF : N := 10.
Definition SPACE : N := 32.
Definition DASH : N := 45.
Definition COLON : N := 58.
Definition LETTER_A : N := 65.
Definition PIPE : N := 124.

(** [\d] in a JavaScript regular expression: the ten ASCII digits. *)
Definition is_digit (c : N) : bool := (48 <=? c)%N && (c <=? 57)%N.

(** The code units removed by [String.prototype.trim]: WhiteSpace and
    LineTerminator of ECMA-262 (TAB, LF, VT, FF, CR, SP, NBSP, the
    Unicode space separators, LS, PS and the byte order mark). *)
Definition is_space (c : N) : bool :=
  existsb (N.eqb c)
    [9; 10; 11; 12; 13; 32; 160; 5760; 8232; 8233; 8239; 8287; 12288; 65279]%N
  || ((8192 <=? c)%N && (c <=? 8202)%N).

Fixpoint drop_while (p : N -> bool) (s : jsstring) : jsstring :=
  match s with
  | [] => []
  | c :: s' => if p c then drop_while p s' else s
  end.

Fixpoint take_while (p : N -> bool) (s : jsstring) : jsstring :=
  match s with
  | [] => []
  | c :: s' => if p c then c :: take_while p s' else []
  end.

(** [s.trim()] *)
Definition trim (s : jsstring) : jsstring :=
  rev (drop_while is_space (rev (drop_while is_space s))).

(** Truthiness of a string: the empty string is falsy. *)
Definition truthy (s : jsstring) : bool :=
  match s with [] => false | _ :: _ => true end.

(** [s.split(sep)] for a separator of one code unit (all separators of
    the source are: newline, tab, space).  The result is never empty:
    splitting the empty string gives one empty piece. *)
Fixpoint split (sep : N) (s : jsstring) : list jsstring :=
  match s with
  | [] => [[]]
  | c :: s' =>
      if (c =? sep)%N then [] :: split sep s'
      else match split sep s' with
           | piece :: pieces => (c :: piece) :: pieces
           | [] => [[c]]
           end
  end.

Fixpoint starts_with (p s : jsstring) : bool :=
  match p, s with
  | [], _ => true
  | _ :: _, [] => false
  | a :: p', b :: s' => (a =? b)%N && starts_with p' s'
  end.

(** [s.includes(p)]: [p] occurs in [s] as a contiguous substring. *)
Fixpoint includes (s p : jsstring) : bool :=
  starts_with p s ||
  match s with
  | [] => false
  | _ :: s' => includes s' p
  end.

(** [s.replace('-', '')] with a string pattern: only the first
    occurrence is removed. *)
Fixpoint remove_first (c : N) (s : jsstring) : jsstring :=
  match s with
  | [] => []
  | x :: s' => if (x =? c)%N then s' else x :: remove_first c s'
  end.

Definition jsstring_eqb (a b : jsstring) : bool :=
  (length a =? length b)%nat && starts_with a b.

(* ================================================================== *)
(** * Results of running code                                           *)
(* ================================================================== *)

(** A run of the modelled code returns a value, throws (the payload is
    the error's message), or exhausts the fuel that bounds its loops. *)
Inductive run (A : Type) : Type :=
| Ret (a : A)
| Throw (message : jsstring)
| OutOfFuel.
Arguments Ret {A} a.
Arguments Throw {A} message.
Arguments OutOfFuel {A}.

Definition bind {A B} (m : run A) (k : A -> run B) : run B :=
  match m with
  | Ret a => k a
  | Throw e => Throw e
  | OutOfFuel => OutOfFuel
  end.

Notation "x <- m ;; k" := (bind m (fun x => k))
  (at level 61, m at next level, right associativity).

(** Reading an array element: out of range gives [undefined], and calling
    a method on [undefined] throws a TypeError. *)
Definition TypeError : jsstring := js "TypeError"%string.

Definition element {A : Type} (xs : list A) (i : nat) : run A :=
  match nth_error xs i with
  | Some x => Ret x
  | None => Throw TypeError
  end.

(* ================================================================== *)
(** * Schedule parser ([parseSchedule])                                 *)
(* ================================================================== *)

Record Event := mkEvent {
  date : jsstring;
  startTime : jsstring;
  endTime : jsstring;
  room : jsstring;
  name : jsstring
}.

(** ** The two regular expressions, piece by piece.

    A matcher takes the remaining input and returns the matched text
    and what follows it. *)

Definition matcher := jsstring -> option (jsstring * jsstring).

(** [\d{n}] *)
Fixpoint digits (n : nat) : matcher := fun s =>
  match n with
  | O => Some ([], s)
  | S n' =>
      match s with
      | c :: s' =>
          if is_digit c then
            match digits n' s' with
            | Some (d, r) => Some (c :: d, r)
            | None => None
            end
          else None
      | [] => None
      end
  end.

(** a literal character *)
Definition lit (c : N) : matcher := fun s =>
  match s with
  | x :: s' => if (x =? c)%N then Some ([x], s') else None
  | [] => None
  end.

(** concatenation *)
Definition seq (m1 m2 : matcher) : matcher := fun s =>
  match m1 s with
  | Some (a, r) =>
      match m2 r with
      | Some (b, r') => Some (a ++ b, r')
      | None => None
      end
  | None => None
  end.

(** [\d+] at the end of a pattern: greedy, so the longest run of digits,
    and at least one. *)
Definition digits1 : matcher := fun s =>
  match take_while is_digit s with
  | [] => None
  | ds => Some (ds, drop_while is_digit s)
  end.

(** [-?\d+]: the optional dash is tried first; when the rest then fails
    the matcher backtracks and tries [\d+] without it. *)
Definition optDashDigits : matcher := fun s =>
  match seq (lit DASH) digits1 s with
  | Some r => Some r
  | None => digits1 s
  end.

(** [\d{4}-\d{2}-\d{2}] *)
Definition dateRe : matcher :=
  seq (digits 4) (seq (lit DASH) (seq (digits 2) (seq (lit DASH) (digits 2)))).

(** [\d{2}:\d{2}] *)
Definition timeRe : matcher :=
  seq (digits 2) (seq (lit COLON) (digits 2)).

(** [A-?\d+] *)
Definition roomRe : matcher := seq (lit LETTER_A) optDashDigits.

(** [entry.match(/^(\d{4}-\d{2}-\d{2})\|(\d{2}:\d{2})\|(\d{2}:\d{2})\|(A-?\d+)/)]:
    the four captured groups, or [None] for [null].  The pattern is
    anchored at the start only. *)
Definition matchHeader (entry : jsstring)
  : option (jsstring * jsstring * jsstring * jsstring) :=
  match dateRe entry with
  | Some (g1, r1) =>
    match lit PIPE r1 with
    | Some (_, r2) =>
      match timeRe r2 with
      | Some (g2, r3) =>
        match lit PIPE r3 with
        | Some (_, r4) =>
          match timeRe r4 with
          | Some (g3, r5) =>
            match lit PIPE r5 with
            | Some (_, r6) =>
              match roomRe r6 with
              | Some (g4, _) => Some (g1, g2, g3, g4)
              | None => None
              end
            | None => None
            end
          | None => None
          end
        | None => None
        end
      | None => None
      end
    | None => None
    end
  | None => None
  end.

(** [name.match(/^\d{4}-\d{2}-\d{2}/)] as a truth value. *)
Definition matchDatePrefix (s : jsstring) : bool :=
  match dateRe s with Some _ => true | None => false end.

(** The event pushed at source lines 33-39. *)
Definition eventOf (m : jsstring * jsstring * jsstring * jsstring)
    (nm : jsstring) : Event :=
  let '(g1, g2, g3, g4) := m in
  {| date := g1; startTime := g2; endTime := g3;
     room := remove_first DASH g4; name := nm |}.

(** The inner loop [for (let i = 0; i < entries.length; i++)], with its
    index and the extra [i++] that skips a consumed name.  Every turn
    increases [i], so [length entries] turns of fuel are enough. *)
Fixpoint scanEntries (fuel : nat) (entries : list jsstring) (i : nat)
    (events : list Event) : run (list Event) :=
  if (i <? length entries)%nat then
    match fuel with
    | O => OutOfFuel
    | S fuel' =>
        e <- element entries i ;;
        let entry := trim e in
        match matchHeader entry with
        | Some m =>
            if (i + 1 <? length entries)%nat then
              n <- element entries (i + 1) ;;
              let nm := trim n in
              if truthy nm && negb (matchDatePrefix nm) then
                scanEntries fuel' entries (i + 1 + 1) (events ++ [eventOf m nm])
              else scanEntries fuel' entries (i + 1) events
            else scanEntries fuel' entries (i + 1) events
        | None => scanEntries fuel' entries (i + 1) events
        end
    end
  else Ret events.

(** [line.split('\t').filter(e => e.trim())] *)
Definition entriesOf (line : jsstring) : list jsstring :=
  filter (fun e => truthy (trim e)) (split TAB line).

(** The inner loop run from [i = 0] over the tokens of a line. *)
Definition tokenLoop (entries : list jsstring) (events : list Event)
  : run (list Event) :=
  scanEntries (length entries) entries 0 events.

(** The body of [for (const line of lines)]. *)
Definition parseLine (line : jsstring) (events : list Event)
  : run (list Event) :=
  if negb (truthy (trim line)) then Ret events
  else tokenLoop (entriesOf line) events.

Fixpoint parseLines (lines : list jsstring) (events : list Event)
  : run (list Event) :=
  match lines with
  | [] => Ret events
  | line :: rest => events' <- parseLine line events ;; parseLines rest events'
  end.

Definition parseSchedule (input : jsstring) : run (list Event) :=
  parseLines (split LF (trim input)) [].

(** ** The token scan as a recursion on the remaining tokens

    The same loop without index and fuel; the proofs go through it. *)
Fixpoint scanTokens (entries : list jsstring) : list Event :=
  match entries with
  | [] => []
  | e :: rest =>
      match matchHeader (trim e) with
      | Some m =>
          match rest with
          | n :: rest' =>
              if truthy (trim n) && negb (matchDatePrefix (trim n))
              then eventOf m (trim n) :: scanTokens rest'
              else scanTokens rest
          | [] => scanTokens rest
          end
      | None => scanTokens rest
      end
  end.

(** The events of one line. *)
Definition lineEvents (line : jsstring) : list Event :=
  if truthy (trim line) then scanTokens (entriesOf line) else [].

(** The two tests of the loop body, on an untrimmed token. *)
Definition isHeader (e : jsstring) : bool :=
  match matchHeader (trim e) with Some _ => true | None => false end.

Definition validName (n : jsstring) : bool :=
  truthy (trim n) && negb (matchDatePrefix (trim n)).

(** Whether the tokens after a header start with a usable name. *)
Definition followedByName (rest : list jsstring) : bool :=
  match rest with
  | n :: _ => validName n
  | [] => false
  end.

(** ** Token shapes of the input format *)

(** [YYYY-MM-DD] *)
Definition isDateToken (d : jsstring) : bool :=
  match d with
  | [y1; y2; y3; y4; s1; m1; m2; s2; d1; d2] =>
      (s1 =? DASH)%N && (s2 =? DASH)%N
      && forallb is_digit [y1; y2; y3; y4; m1; m2; d1; d2]
  | _ => false
  end.

(** [HH:MM] *)
Definition isTimeToken (t : jsstring) : bool :=
  match t with
  | [h1; h2; s1; m1; m2] =>
      (s1 =? COLON)%N && forallb is_digit [h1; h2; m1; m2]
  | _ => false
  end.

(** The digits of a room code: what follows the letter, after an
    optional dash. *)
Definition roomDigits (afterLetter : jsstring) : jsstring :=
  match afterLetter with
  | c :: ds => if (c =? DASH)%N then ds else afterLetter
  | [] => []
  end.

(** A room code of the given letter: the letter, an optional dash, then
    one or more digits. *)
Definition isRoomToken (letter : N) (r : jsstring) : bool :=
  match r with
  | l :: rest =>
      (l =? letter)%N && truthy (roomDigits rest)
      && forallb is_digit (roomDigits rest)
  | [] => false
  end.

(** Printable code units below the no-break space: neither white space
    nor a separator of the input format. *)
Definition plain (c : N) : bool := (33 <=? c)%N && (c <? 160)%N.

(** ASCII letters. *)
Definition is_letter (c : N) : bool :=
  ((65 <=? c)%N && (c <=? 90)%N) || ((97 <=? c)%N && (c <=? 122)%N).

(** A name cell as the parser reads it: not empty, trimmed, within one
    cell of one line, and not starting with a date. *)
Definition isNameToken (nm : jsstring) : bool :=
  truthy nm
  && negb (is_space (hd 0%N nm)) && negb (is_space (last nm 0%N))
  && forallb (fun c => negb (c =? TAB)%N && negb (c =? LF)%N) nm
  && negb (matchDatePrefix nm).

(** The header cell [date|start|end|room]. *)
Definition headerToken (d s e r : jsstring) : jsstring :=
  d ++ [PIPE] ++ s ++ [PIPE] ++ e ++ [PIPE] ++ r.

(** All dashes of a room code removed. *)
Definition stripDashes (r : jsstring) : jsstring :=
  filter (fun c => negb (c =? DASH)%N) r.

(** ** The shape of an emitted event *)

Definition roomIsAThenDigits (r : jsstring) : bool :=
  match r with
  | c :: ds => (c =? LETTER_A)%N && forallb is_digit ds
  | [] => false
  end.

Definition hasDash (r : jsstring) : bool := existsb (N.eqb DASH) r.

(** The string begins with [YYYY-MM-DD]. *)
Definition startsWithDate (s : jsstring) : bool := isDateToken (firstn 10 s).

Definition eventInvariant (ev : Event) : bool :=
  roomIsAThenDigits (room ev) && negb (hasDash (room ev))
  && truthy (name ev) && negb (startsWithDate (name ev)).

(* ================================================================== *)
(** * The document tree                                                 *)
(* ================================================================== *)

(** What the script reads of an element: its tag (local name, lower
    case), its [id], its class list, its [onclick] attribute, the
    [display] property of its inline style, and whether it is an
    [HTMLElement] and so has a [click] method (the elements of embedded
    SVG and MathML content are not, and have none).  The documents are
    those the HTML parser builds: every element has an inline style,
    and the elements named [div], [span], [ul] and [li] are HTML
    elements, since these tags end embedded content. *)
Record Attrs := mkAttrs {
  tag : jsstring;
  ident : option jsstring;
  classes : list jsstring;
  onclick : option jsstring;
  display : jsstring;
  htmlElement : bool
}.

#[warnings="-register-all"] Inductive Node : Type :=
| Text (data : jsstring)
| Elem (a : Attrs) (children : list Node).

(** An element reference: the child indices leading to it from the
    root of the document. *)
Definition Path := list nat.

Definition under (i : nat) (x : Path * Node) : Path * Node :=
  (i :: fst x, snd x).

(** The element [n] and the elements below it, in document order, each
    with its path from [n].  Text nodes count as children for the
    indices and are not listed. *)
Fixpoint elements (n : Node) : list (Path * Node) :=
  match n with
  | Text _ => []
  | Elem _ kids =>
      ([], n) ::
      (fix below (i : nat) (ks : list Node) : list (Path * Node) :=
         match ks with
         | [] => []
         | k :: ks' => map (under i) (elements k) ++ below (S i) ks'
         end) 0%nat kids
  end.

(** The elements below the children [ks], the first of which has index
    [i]: the inner recursion of [elements] by itself. *)
Definition belowFrom : nat -> list Node -> list (Path * Node) :=
  fix below (i : nat) (ks : list Node) : list (Path * Node) :=
    match ks with
    | [] => []
    | k :: ks' => map (under i) (elements k) ++ below (S i) ks'
    end.

(** The proper descendants of [n]: what [n.querySelectorAll] ranges over. *)
Definition descendants (n : Node) : list (Path * Node) := tl (elements n).

(** [n.textContent] *)
Fixpoint textContent (n : Node) : jsstring :=
  match n with
  | Text d => d
  | Elem _ kids =>
      (fix cat (ks : list Node) : jsstring :=
         match ks with
         | [] => []
         | k :: ks' => textContent k ++ cat ks'
         end) kids
  end.

Definition childNodes (n : Node) : list Node :=
  match n with Text _ => [] | Elem _ kids => kids end.

Fixpoint nodeAt (n : Node) (p : Path) : option Node :=
  match p with
  | [] => Some n
  | i :: p' =>
      match nth_error (childNodes n) i with
      | Some k => nodeAt k p'
      | None => None
      end
  end.

(** ** Selectors *)

Definition hasTag (t : string) (n : Node) : bool :=
  match n with Text _ => false | Elem a _ => jsstring_eqb (tag a) (js t) end.

Definition hasClass (c : string) (n : Node) : bool :=
  match n with
  | Text _ => false
  | Elem a _ => existsb (jsstring_eqb (js c)) (classes a)
  end.

Definition hasId (i : string) (n : Node) : bool :=
  match n with
  | Elem {| ident := Some x |} _ => jsstring_eqb x (js i)
  | _ => false
  end.

(** [div] *)
Definition selDiv : Node -> bool := hasTag "div".
(** [span.ui-icon-plusthick] *)
Definition selAddControl (n : Node) : bool :=
  hasTag "span" n && hasClass "ui-icon-plusthick" n.
(** [ul[id^="ul_"]] *)
Definition selAssignedList (n : Node) : bool :=
  hasTag "ul" n &&
  match n with
  | Elem {| ident := Some x |} _ => starts_with (js "ul_") x
  | _ => false
  end.
(** [li] *)
Definition selLi : Node -> bool := hasTag "li".
(** [div[onclick^="dodajKorGrupa"]] *)
Definition selCandidate (n : Node) : bool :=
  hasTag "div" n &&
  match n with
  | Elem {| onclick := Some x |} _ => starts_with (js "dodajKorGrupa") x
  | _ => false
  end.

(** [n.querySelectorAll(sel)], paths relative to [n]. *)
Definition querySelectorAll (sel : Node -> bool) (n : Node)
  : list (Path * Node) :=
  filter (fun x => sel (snd x)) (descendants n).

(** [n.querySelector(sel)] *)
Definition querySelector (sel : Node -> bool) (n : Node)
  : option (Path * Node) :=
  hd_error (querySelectorAll sel n).

(** [document.getElementById(i)]: the first element in document order
    with that id. *)
Definition getElementById (doc : Node) (i : string) : option (Path * Node) :=
  hd_error (filter (fun x => hasId i (snd x)) (elements doc)).

(** [el.closest(sel)]: the nearest inclusive ancestor matching [sel].
    The path is given innermost index first. *)
Fixpoint closestRev (doc : Node) (sel : Node -> bool) (rp : list nat)
  : option (Path * Node) :=
  match nodeAt doc (rev rp) with
  | Some n =>
      if sel n then Some (rev rp, n)
      else match rp with
           | [] => None
           | _ :: rp' => closestRev doc sel rp'
           end
  | None =>
      match rp with
      | [] => None
      | _ :: rp' => closestRev doc sel rp'
      end
  end.

Definition closest (doc : Node) (sel : Node -> bool) (p : Path)
  : option (Path * Node) :=
  closestRev doc sel (rev p).

Definition isElement (n : Node) : bool :=
  match n with Text _ => false | Elem _ _ => true end.

(** The elements after [el] among its parent's children, nearest first:
    the chain [el.nextElementSibling], [.nextElementSibling], ... *)
Definition nextElementSiblings (doc : Node) (p : Path) : list Node :=
  match rev p with
  | [] => []
  | i :: rparent =>
      match nodeAt doc (rev rparent) with
      | Some parent => filter isElement (skipn (S i) (childNodes parent))
      | None => []
      end
  end.

(** [document.querySelector('#editorDialog .ui-dialog-titlebar-close')]:
    the first element of that class below an element with that id. *)
Definition hasAncestorWithId (doc : Node) (i : string) (p : Path) : bool :=
  match rev p with
  | [] => false
  | _ :: rparent =>
      match closestRev doc (hasId i) rparent with
      | Some _ => true
      | None => false
      end
  end.

Definition findCloseButton (doc : Node) : option Path :=
  option_map fst
    (hd_error
       (filter (fun x => hasClass "ui-dialog-titlebar-close" (snd x)
                         && hasAncestorWithId doc "editorDialog" (fst x))
               (elements doc))).

(** Whether [el.click] is a function, for the element at [p]. *)
Definition hasClickMethod (doc : Node) (p : Path) : bool :=
  match nodeAt doc p with
  | Some (Elem a _) => htmlElement a
  | _ => false
  end.

(* ================================================================== *)
(** * Slot locator, assignment checker, person finder                   *)
(* ================================================================== *)

(** The text looked for: [`${date} ${startTime} ${endTime} ${room}`]. *)
Definition slotPattern (event : Event) : jsstring :=
  date event ++ [SPACE] ++ startTime event ++ [SPACE] ++ endTime event
  ++ [SPACE] ++ room event.

(** The loop [for (const div of divs)] of [findMatchingDiv]; the result
    is relative to the editor. *)
Fixpoint firstAddControl (pattern : jsstring) (divs : list (Path * Node))
  : option Path :=
  match divs with
  | [] => None
  | (q, div) :: rest =>
      if includes (textContent div) pattern then
        match querySelector selAddControl div with
        | Some (q', _) => Some (q ++ q')
        | None => firstAddControl pattern rest
        end
      else firstAddControl pattern rest
  end.

Definition findMatchingDiv (doc : Node) (event : Event) : option Path :=
  match getElementById doc "editor" with
  | None => None
  | Some (p, editor) =>
      option_map (app p)
        (firstAddControl (slotPattern event) (querySelectorAll selDiv editor))
  end.

(** The name test of source lines 86-98 (and again 115-127): applied to
    the text of one list entry. *)
Definition nameMatches (text name : jsstring) : bool :=
  let nameParts := split SPACE name in
  if (2 <=? length nameParts)%nat then
    let lastName := last nameParts [] in
    let firstName := hd [] nameParts in
    includes text lastName && includes text firstName
  else includes text name.

(** The loop [while (nextDiv)] of [isPersonAlreadyAssigned]: the first
    sibling holding an assigned list decides. *)
Fixpoint checkSiblings (name : jsstring) (siblings : list Node) : bool :=
  match siblings with
  | [] => false
  | nextDiv :: rest =>
      match querySelector selAssignedList nextDiv with
      | Some (_, ul) =>
          existsb (fun li => nameMatches (textContent (snd li)) name)
                  (querySelectorAll selLi ul)
      | None => checkSiblings name rest
      end
  end.

Definition isPersonAlreadyAssigned (doc : Node) (dodajSpan : Path)
    (name : jsstring) : bool :=
  match closest doc selDiv dodajSpan with
  | None => false
  | Some (parentDiv, _) => checkSiblings name (nextElementSiblings doc parentDiv)
  end.

Fixpoint firstCandidate (name : jsstring) (divs : list (Path * Node))
  : option Path :=
  match divs with
  | [] => None
  | (q, div) :: rest =>
      if nameMatches (textContent div) name then Some q
      else firstCandidate name rest
  end.

Definition findPersonInDialog (doc : Node) (name : jsstring) : option Path :=
  match getElementById doc "editorDialog" with
  | None => None
  | Some (p, dialog) =>
      option_map (app p)
        (firstCandidate name (querySelectorAll selCandidate dialog))
  end.

Definition displayNone (n : Node) : bool :=
  match n with
  | Text _ => false
  | Elem a _ => jsstring_eqb (display a) (js "none")
  end.

(** The test of [waitForDialog]: [dialog && dialog.style.display !== 'none']. *)
Definition dialogVisible (doc : Node) : bool :=
  match getElementById doc "editorDialog" with
  | Some (_, dialog) => negb (displayNone dialog)
  | None => false
  end.

(** The three tests of [waitForDialogClose]: no dialog element, a hidden
    [.ui-dialog] wrapper, or a hidden dialog element. *)
Definition dialogClosed (doc : Node) : bool :=
  match getElementById doc "editorDialog" with
  | None => true
  | Some (p, dialog) =>
      match closest doc (hasClass "ui-dialog") p with
      | Some (_, parentDialog) => displayNone parentDialog || displayNone dialog
      | None => displayNone dialog
      end
  end.

(* ================================================================== *)
(** * The host page                                                     *)
(* ================================================================== *)

(** The page the script runs in, seen from the script: the current
    document, the clock read by [Date.now()], what a click does (the
    page's handlers run before [click()] returns), the state of the
    page at the moment a timer set [ms] milliseconds earlier fires, and
    the message of the [TypeError] that the engine raises for the call
    [closeBtn.click()] when [closeBtn.click] is undefined. *)
Class Host : Type := {
  World : Type;
  document : World -> Node;
  now : World -> Z;
  click : Path -> World -> World;
  elapse : Z -> World -> World;
  clickTypeError : jsstring
}.

(** Timers do not fire early. *)
Definition timersProgress (H : Host) : Prop :=
  forall (ms : Z) (w : World), (now w + ms <= now (elapse ms w))%Z.

(* ================================================================== *)
(** * Dialog waits and the batch processor                              *)
(* ================================================================== *)

Inductive settled : Type :=
| Resolved
| Rejected (message : jsstring).

(** What the processor invoked, in order.  The log is bookkeeping of the
    model: the code never reads it. *)
Inductive Call : Type :=
| Locate (event : Event)
| CheckAssigned (control : Path)
| Click (target : Path)
| ClickThrew (target : Path)
| AwaitOpen
| AwaitClose
| FindPerson
| Delay (ms : Z).

Record Results := mkResults {
  success : list jsstring;
  alreadyAssigned : list jsstring;
  slotNotFound : list jsstring;
  personNotFound : list jsstring;
  errors : list (jsstring * jsstring)
}.

Definition noResults : Results := mkResults [] [] [] [] [].

Definition pushSuccess (s : jsstring) (r : Results) : Results :=
  mkResults (success r ++ [s]) (alreadyAssigned r) (slotNotFound r)
            (personNotFound r) (errors r).
Definition pushAlreadyAssigned (s : jsstring) (r : Results) : Results :=
  mkResults (success r) (alreadyAssigned r ++ [s]) (slotNotFound r)
            (personNotFound r) (errors r).
Definition pushSlotNotFound (s : jsstring) (r : Results) : Results :=
  mkResults (success r) (alreadyAssigned r) (slotNotFound r ++ [s])
            (personNotFound r) (errors r).
Definition pushPersonNotFound (s : jsstring) (r : Results) : Results :=
  mkResults (success r) (alreadyAssigned r) (slotNotFound r)
            (personNotFound r ++ [s]) (errors r).
Definition pushError (s message : jsstring) (r : Results) : Results :=
  mkResults (success r) (alreadyAssigned r) (slotNotFound r)
            (personNotFound r) (errors r ++ [(s, message)]).

(** [`${date} ${startTime}-${endTime} ${room} - ${name}`] *)
Definition describe (event : Event) : jsstring :=
  date event ++ [SPACE] ++ startTime event ++ [DASH] ++ endTime event
  ++ [SPACE] ++ room event ++ js " - " ++ name event.

Definition pollInterval : Z := 100.
Definition defaultTimeout : Z := 5000.

Section Engine.

Context {H : Host}.

Record State := mkState {
  world : World;
  results : Results;
  calls : list Call
}.

(** The interval callback of [waitForDialog], once per turn: the dialog
    test comes first and settles the promise; a later [reject] on a
    settled promise has no effect. *)
Fixpoint pollOpen (fuel : nat) (timeout startTime : Z) (w : World)
  : run (settled * World) :=
  match fuel with
  | O => OutOfFuel
  | S fuel' =>
      let w' := elapse pollInterval w in
      if dialogVisible (document w') then Ret (Resolved, w')
      else if (now w' - startTime >? timeout)%Z
           then Ret (Rejected (js "Dialog timeout"), w')
           else pollOpen fuel' timeout startTime w'
  end.

Definition waitForDialog (fuel : nat) (timeout : Z) (w : World)
  : run (settled * World) :=
  pollOpen fuel timeout (now w) w.

(** The interval callback of [waitForDialogClose]. *)
Fixpoint pollClose (fuel : nat) (timeout startTime : Z) (w : World)
  : run (settled * World) :=
  match fuel with
  | O => OutOfFuel
  | S fuel' =>
      let w' := elapse pollInterval w in
      if dialogClosed (document w') then Ret (Resolved, w')
      else if (now w' - startTime >? timeout)%Z
           then Ret (Rejected (js "Dialog close timeout"), w')
           else pollClose fuel' timeout startTime w'
  end.

Definition waitForDialogClose (fuel : nat) (timeout : Z) (w : World)
  : run (settled * World) :=
  pollClose fuel timeout (now w) w.

(** One turn of the loop of [processEvents] (source lines 202-258).
    [fuel] bounds the polls of each wait.  The rejection of a wait and
    an exception thrown between lines 225 and 253 end in the [catch] of
    line 255, which records the message under [errors].  [dodajBtn] and
    [personDiv] are chosen by the type selectors [span] and [div]; in a
    document built by the HTML parser such elements are HTML elements,
    and their [click()] runs the handlers of the page and returns.
    [closeBtn] is chosen by its class alone and can be an element
    without a [click] method: the call then throws, after the push to
    [personNotFound]. *)
Definition processEvent (fuel : nat) (event : Event) (st : State)
  : run State :=
  let eventStr := describe event in
  let w := world st in
  let r := results st in
  let log := calls st ++ [Locate event] in
  match findMatchingDiv (document w) event with
  | None => Ret (mkState w (pushSlotNotFound eventStr r) log)
  | Some dodajBtn =>
      let log := log ++ [CheckAssigned dodajBtn] in
      if isPersonAlreadyAssigned (document w) dodajBtn (name event) then
        Ret (mkState w (pushAlreadyAssigned eventStr r) log)
      else
        let w := click dodajBtn w in
        let log := log ++ [Click dodajBtn; AwaitOpen] in
        opened <- waitForDialog fuel defaultTimeout w ;;
        match opened with
        | (Rejected message, w) =>
            Ret (mkState w (pushError eventStr message r) log)
        | (Resolved, w) =>
            let w := elapse 300 w in
            let log := log ++ [Delay 300; FindPerson] in
            match findPersonInDialog (document w) (name event) with
            | None =>
                let r := pushPersonNotFound eventStr r in
                match findCloseButton (document w) with
                | Some closeBtn =>
                    if hasClickMethod (document w) closeBtn then
                      Ret (mkState (elapse 300 (click closeBtn w)) r
                                   (log ++ [Click closeBtn; Delay 300]))
                    else
                      Ret (mkState w (pushError eventStr clickTypeError r)
                                   (log ++ [ClickThrew closeBtn]))
                | None =>
                    Ret (mkState (elapse 300 w) r (log ++ [Delay 300]))
                end
            | Some personDiv =>
                let w := click personDiv w in
                let log := log ++ [Click personDiv; AwaitClose] in
                closed <- waitForDialogClose fuel defaultTimeout w ;;
                match closed with
                | (Rejected message, w) =>
                    Ret (mkState w (pushError eventStr message r) log)
                | (Resolved, w) =>
                    Ret (mkState (elapse 500 w) (pushSuccess eventStr r)
                                 (log ++ [Delay 500]))
                end
            end
        end
  end.

Fixpoint processLoop (fuel : nat) (events : list Event) (st : State)
  : run State :=
  match events with
  | [] => Ret st
  | event :: rest =>
      st' <- processEvent fuel event st ;; processLoop fuel rest st'
  end.

(** [processEvents(events)] started in world [w]; the JavaScript value
    returned is the [results] field of the final state. *)
Definition processEvents (fuel : nat) (events : list Event) (w : World)
  : run State :=
  processLoop fuel events (mkState w noResults []).

End Engine.

(* ================================================================== *)
(** * Outcomes and the report                                           *)
(* ================================================================== *)

(** How a turn of the loop can end: with one push to one of the five
    sequences, or, when the person is not found and the click on the
    close control throws, with a push to [personNotFound] followed by a
    push to [errors]. *)
Inductive Outcome : Type :=
| Success
| AlreadyAssigned
| SlotNotFound
| PersonNotFound
| Error (message : jsstring)
| CloseFailed (message : jsstring).

(** The pushes of a turn that ends in the given way. *)
Definition record (o : Outcome) (s : jsstring) (r : Results) : Results :=
  match o with
  | Success => pushSuccess s r
  | AlreadyAssigned => pushAlreadyAssigned s r
  | SlotNotFound => pushSlotNotFound s r
  | PersonNotFound => pushPersonNotFound s r
  | Error message => pushError s message r
  | CloseFailed message => pushError s message (pushPersonNotFound s r)
  end.




Definition recordAll (l : list (Event * Outcome)) (r : Results) : Results :=
  fold_left (fun r eo => record (snd eo) (describe (fst eo)) r) l r.

(** Total length of the five sequences. *)
Definition total (r : Results) : nat :=
  length (success r) + length (alreadyAssigned r) + length (slotNotFound r)
  + length (personNotFound r) + length (errors r).






Section EngineDefs.

Context {H : Host}.

(** The state at the [k]-th interval callback after [w]. *)
Fixpoint polls (k : nat) (w : World) : World :=
  match k with
  | O => w
  | S k' => polls k' (elapse pollInterval w)
  end.

(** Both waits are the same loop around a test of the document. *)
Fixpoint pollUntil (test : Node -> bool) (message : jsstring) (fuel : nat)
    (timeout startTime : Z) (w : World) : run (settled * World) :=
  match fuel with
  | O => OutOfFuel
  | S fuel' =>
      let w' := elapse pollInterval w in
      if test (document w') then Ret (Resolved, w')
      else if (now w' - startTime >? timeout)%Z
           then Ret (Rejected message, w')
           else pollUntil test message fuel' timeout startTime w'
  end.

End EngineDefs.

(* ================================================================== *)
(** * The locator, in the words of the specification and of the loop     *)
(* ================================================================== *)

Definition containsText (pattern : jsstring) (x : Path * Node) : bool :=
  includes (textContent (snd x)) pattern.

Definition hasAddControl (x : Path * Node) : bool :=
  match querySelector selAddControl (snd x) with
  | Some _ => true
  | None => false
  end.

(** The add control of an element, as a path from the document root. *)
Definition addControlOf (p : Path) (x : Path * Node) : option Path :=
  option_map (fun c => p ++ fst x ++ fst c)
             (querySelector selAddControl (snd x)).

(** The locator as the specification words it: only the first [div] of
    the editor whose text contains the pattern is looked at. *)
Definition locateFirstMatch (doc : Node) (event : Event) : option Path :=
  match getElementById doc "editor" with
  | None => None
  | Some (p, editor) =>
      match find (containsText (slotPattern event))
                 (querySelectorAll selDiv editor) with
      | Some x => addControlOf p x
      | None => None
      end
  end.

(** The locator as the loop works: the first [div] of the editor whose
    text contains the pattern and that has an add control below it. *)
Definition locateFirstUsable (doc : Node) (event : Event) : option Path :=
  match getElementById doc "editor" with
  | None => None
  | Some (p, editor) =>
      match find (fun x => containsText (slotPattern event) x
                           && hasAddControl x)
                 (querySelectorAll selDiv editor) with
      | Some x => addControlOf p x
      | None => None
      end
  end.

(** Whether the first [div] containing the pattern, if any, has an add
    control. *)
Definition firstMatchHasControl (doc : Node) (event : Event) : bool :=
  match getElementById doc "editor" with
  | None => true
  | Some (_, editor) =>
      match find (containsText (slotPattern event))
                 (querySelectorAll selDiv editor) with
      | Some x => hasAddControl x
      | None => true
      end
  end.

(* ================================================================== *)
(** * A model page                                                      *)
(* ================================================================== *)

(** A small page with one slot and one candidate, used to run the
    processor on concrete inputs.  Its state is the clock, the time at
    which a requested dialog becomes visible, and whether the candidate
    is listed as assigned. *)
Record Page := mkPage {
  clock : Z;
  opensAt : option Z;
  assigned : bool
}.

Definition el (t : string) (i : option string) (cls : list string)
    (onc : option string) (disp : string) (kids : list Node) : Node :=
  Elem (mkAttrs (js t) (option_map js i) (map js cls) (option_map js onc)
                (js disp) true) kids.


Definition dialogShown (pg : Page) : bool :=
  match opensAt pg with
  | Some t => (t <=? clock pg)%Z
  | None => false
  end.

Open Scope string_scope.

Definition pageDocument (pg : Page) : Node :=
  let shown := if dialogShown pg then "block" else "none" in
  el "body" None [] None "" [
    el "div" (Some "editor") [] None "" [
      el "div" None [] None "" [
        Text (js "2024-03-10 09:00 10:00 A1");
        el "span" None ["ui-icon"; "ui-icon-plusthick"] None "" [] ];
      el "div" None [] None "" [
        el "ul" (Some "ul_1") [] None ""
          (if assigned pg
           then [el "li" None [] None "" [Text (js "Anic, Ana")]]
           else []) ] ];
    el "div" None ["ui-dialog"] None shown [
      el "div" (Some "editorDialog") [] None shown [
        el "a" None ["ui-dialog-titlebar-close"] None "" [];
        el "div" None [] (Some "dodajKorGrupa(1)") "" [
          Text (js "Anic, Ana") ] ] ] ].

Close Scope string_scope.

Definition addControl : Path := [0; 0; 1]%nat.
Definition candidateEntry : Path := [1; 0; 1]%nat.
Definition closeControl : Path := [1; 0; 0]%nat.

Definition path_eqb (p q : Path) : bool :=
  if list_eq_dec Nat.eq_dec p q then true else false.

(** Clicking the add control asks for the dialog, which shows [latency]
    milliseconds later (never, for [None]); clicking the candidate in a
    visible dialog assigns the candidate and closes the dialog; the
    close control closes it. *)
Definition pageClick (latency : option Z) (target : Path) (pg : Page) : Page :=
  if path_eqb target addControl then
    match latency with
    | Some l => mkPage (clock pg) (Some (clock pg + l)%Z) (assigned pg)
    | None => pg
    end
  else if path_eqb target candidateEntry && dialogShown pg then
    mkPage (clock pg) None true
  else if path_eqb target closeControl then
    mkPage (clock pg) None (assigned pg)
  else pg.

Definition pageElapse (ms : Z) (pg : Page) : Page :=
  mkPage (clock pg + ms)%Z (opensAt pg) (assigned pg).

Definition modelPage (latency : option Z) : Host :=
  {| World := Page;
     document := pageDocument;
     now := clock;
     click := pageClick latency;
     elapse := pageElapse;
     clickTypeError := js "closeBtn.click is not a function" |}.

Open Scope string_scope.


Close Scope string_scope.


Definition anaEvent : Event :=
  {| date := js "2024-03-10"; startTime := js "09:00";
     endTime := js "10:00"; room := js "A1"; name := js "Ana Anic" |}.

Definition startPage : Page := mkPage 0 None false.

Definition otherRoomEvent : Event :=
  {| date := js "2024-03-10"; startTime := js "09:00";
     endTime := js "10:00"; room := js "A2"; name := js "Ana Anic" |}.

Open Scope string_scope.

(** An editor with the slot text in two rows, of which only the second
    has an add control. *)
Definition twoRowDocument : Node :=
  el "body" None [] None "" [
    el "div" (Some "editor") [] None "" [
      el "div" None [] None "" [ Text (js "2024-03-10 09:00 10:00 A1") ];
      el "div" None [] None "" [
        Text (js "2024-03-10 09:00 10:00 A1 (spare)");
        el "span" None ["ui-icon-plusthick"] None "" [] ] ] ].

Close Scope string_scope.

Open Scope string_scope.

Definition listEntry (t : string) : Node :=
  el "li" None [] None "" [Text (js t)].

(** A slot row whose assigned list has the given entries. *)
Definition assignedDocument (entries : list string) : Node :=
  el "body" None [] None "" [
    el "div" (Some "editor") [] None "" [
      el "div" None [] None "" [
        Text (js "2024-03-10 09:00 10:00 A1");
        el "span" None ["ui-icon-plusthick"] None "" [] ];
      el "div" None [] None "" [
        el "ul" (Some "ul_1") [] None "" (map listEntry entries) ] ] ].

Close Scope string_scope.

(* ================================================================== *)
(** * Further notions used in the statements                            *)
(* ================================================================== *)

(** The events of all lines of a text, without the trimming of the
    whole input. *)
Definition allEvents (s : jsstring) : list Event :=
  flat_map lineEvents (split LF s).

(** Two cells that differ in surrounding white space only. *)
Definition sameCell (a b : jsstring) : Prop := trim a = trim b.

(** The number of tab characters of a text. *)
Definition tabs (s : jsstring) : nat := count_occ N.eq_dec s TAB.

(** The shape of the four fields taken from a header. *)
Definition headerFields (ev : Event) : bool :=
  isDateToken (date ev) && isTimeToken (startTime ev)
  && isTimeToken (endTime ev) && roomIsAThenDigits (room ev).

(** The descriptions of the events recorded under the outcomes chosen
    by [sel], in the order of the events. *)
Definition descriptionsWith (sel : Outcome -> bool)
    (l : list (Event * Outcome)) : list jsstring :=
  map (fun eo => describe (fst eo)) (filter (fun eo => sel (snd eo)) l).

Definition isSuccess (o : Outcome) : bool :=
  match o with Success => true | _ => false end.
Definition isAlreadyAssigned (o : Outcome) : bool :=
  match o with AlreadyAssigned => true | _ => false end.
Definition isSlotNotFound (o : Outcome) : bool :=
  match o with SlotNotFound => true | _ => false end.
Definition isPersonNotFound (o : Outcome) : bool :=
  match o with PersonNotFound | CloseFailed _ => true | _ => false end.

(** The error entries of the events recorded as errors, in order. *)
Definition errorEntries (l : list (Event * Outcome))
  : list (jsstring * jsstring) :=
  flat_map (fun eo => match snd eo with
                      | Error message | CloseFailed message =>
                          [(describe (fst eo), message)]
                      | _ => []
                      end) l.


(** The clicks of a call log. *)
Definition isClick (c : Call) : bool :=
  match c with Click _ => true | _ => false end.

Definition countClicks (log : list Call) : nat := length (filter isClick log).

(** A call that only reads the document. *)
Definition readsOnly (c : Call) : bool :=
  match c with Locate _ | CheckAssigned _ => true | _ => false end.

(** Nothing is left to do for the event on this document: its slot is
    not there, or the person is listed for it already. *)
Definition nothingToDo (doc : Node) (event : Event) : bool :=
  match findMatchingDiv doc event with
  | None => true
  | Some btn => isPersonAlreadyAssigned doc btn (name event)
  end.

Open Scope string_scope.

(** A slot row followed by two assigned lists. *)
Definition twoListDocument : Node :=
  el "body" None [] None "" [
    el "div" (Some "editor") [] None "" [
      el "div" None [] None "" [
        Text (js "2024-03-10 09:00 10:00 A1");
        el "span" None ["ui-icon-plusthick"] None "" [] ];
      el "div" None [] None "" [ Text (js "assigned:") ];
      el "div" None [] None "" [
        el "ul" (Some "ul_1") [] None "" [listEntry "Novak, Iva"] ];
      el "div" None [] None "" [
        el "ul" (Some "ul_2") [] None "" [listEntry "Anic, Ana"] ] ] ].

Close Scope string_scope.

(** The messages of the two waits. *)
Definition timeoutMessage (m : jsstring) : Prop :=
  m = js "Dialog timeout" \/ m = js "Dialog close timeout".

(** What stands behind an outcome with a message: the rejection of one
    of the two waits, or a close control without a [click] method. *)
Definition explained (H : Host) (o : Outcome) : Prop :=
  match o with
  | Error m => timeoutMessage m
  | CloseFailed m =>
      m = clickTypeError
      /\ exists (w : World) (p : Path),
           findCloseButton (document w) = Some p
           /\ hasClickMethod (document w) p = false
  | _ => True
  end.


(* ================================================================== *)
(** * The process button ([createUI], source lines 313-360)             *)
(* ================================================================== *)

Fixpoint uintCodes (u : Decimal.uint) : jsstring :=
  match u with
  | Decimal.Nil => []
  | Decimal.D0 u' => 48%N :: uintCodes u'
  | Decimal.D1 u' => 49%N :: uintCodes u'
  | Decimal.D2 u' => 50%N :: uintCodes u'
  | Decimal.D3 u' => 51%N :: uintCodes u'
  | Decimal.D4 u' => 52%N :: uintCodes u'
  | Decimal.D5 u' => 53%N :: uintCodes u'
  | Decimal.D6 u' => 54%N :: uintCodes u'
  | Decimal.D7 u' => 55%N :: uintCodes u'
  | Decimal.D8 u' => 56%N :: uintCodes u'
  | Decimal.D9 u' => 57%N :: uintCodes u'
  end.

(** [`${n}`] for a length: its decimal digits. *)
Definition numberToString (n : nat) : jsstring := uintCodes (Nat.to_uint n).

(** The check mark, information sign, warning sign and ballot cross of
    the report lines. *)
Definition CHECK_MARK : N := 10003.
Definition INFORMATION : N := 8505.
Definition WARNING : N := 9888.
Definition BALLOT_X : N := 10007.

(** [`  - ${e}\n`] *)
Definition itemLine (e : jsstring) : jsstring := js "  - " ++ e ++ [LF].

(** [`  - ${e.event}: ${e.error}\n`] *)
Definition errorLine (e : jsstring * jsstring) : jsstring :=
  js "  - " ++ fst e ++ js ": " ++ snd e ++ [LF].

(** [l.forEach(e => report += line(e))] *)
Definition forEachAppend {A} (line : A -> jsstring) (l : list A)
    (report : jsstring) : jsstring :=
  fold_left (fun rep e => rep ++ line e) l report.

(** One of the three blocks [if (l.length > 0) { report += header;
    l.forEach(e => report += line(e)); }], the header being built from
    the length. *)
Definition reportBlock {A} (header : nat -> jsstring) (line : A -> jsstring)
    (l : list A) (report : jsstring) : jsstring :=
  if (0 <? length l)%nat
  then forEachAppend line l (report ++ header (length l))
  else report.

(** [`\n(warning sign) Slot not found (${n}):\n`] *)
Definition slotNotFoundHeader (n : nat) : jsstring :=
  [LF; WARNING] ++ js " Slot not found (" ++ numberToString n ++ js "):"
  ++ [LF].

(** [`\n(warning sign) Person not found in list (${n}):\n`] *)
Definition personNotFoundHeader (n : nat) : jsstring :=
  [LF; WARNING] ++ js " Person not found in list (" ++ numberToString n
  ++ js "):" ++ [LF].

(** [`\n(ballot x) Errors (${n}):\n`] *)
Definition errorsHeader (n : nat) : jsstring :=
  [LF; BALLOT_X] ++ js " Errors (" ++ numberToString n ++ js "):" ++ [LF].

(** The report text built at source lines 333-350. *)
Definition buildReport (r : Results) : jsstring :=
  let report := js "Processing Complete!" ++ [LF; LF] in
  let report :=
    report ++ [CHECK_MARK] ++ js " Successfully processed: "
    ++ numberToString (length (success r)) ++ [LF] in
  let report :=
    report ++ [INFORMATION] ++ js " Already assigned (skipped): "
    ++ numberToString (length (alreadyAssigned r)) ++ [LF] in
  let report := reportBlock slotNotFoundHeader itemLine (slotNotFound r) report in
  let report :=
    reportBlock personNotFoundHeader itemLine (personNotFound r) report in
  let report := reportBlock errorsHeader errorLine (errors r) report in
  report.

Section Button.

Context {H : Host}.

(** The click handler of the process button, for the text of the input
    area: the text it alerts, and the final state of the run when a run
    was started.  The state lost at a throw is not tracked. *)
Definition processClick (fuel : nat) (input : jsstring) (w : World)
  : run (jsstring * option State) :=
  if negb (truthy (trim input)) then
    Ret (js "Please paste schedule data first!", None)
  else
    events <- parseSchedule input ;;
    if (length events =? 0)%nat then
      Ret (js "No valid events found in input!", None)
    else
      match processEvents fuel events w with
      | Ret st => Ret (buildReport (results st), Some st)
      | Throw message =>
          Ret (js "Error processing schedule: " ++ message, None)
      | OutOfFuel => OutOfFuel
      end.

End Button.

(* ================================================================== *)
(** * The title script ([src/unnamed/part_000]): its string functions   *)
(* ================================================================== *)

(** [s.trimStart()] and [s.trimEnd()] *)
Definition trimStart (s : jsstring) : jsstring := drop_while is_space s.
Definition trimEnd (s : jsstring) : jsstring :=
  rev (drop_while is_space (rev s)).

(** [s.endsWith(p)] *)
Definition ends_with (p s : jsstring) : bool := starts_with (rev p) (rev s).

(** An index argument of [slice] for a string of length [len]: counted
    from the end when negative, and clamped to the string. *)
Definition sliceIndex (len i : Z) : Z :=
  if (i <? 0)%Z then Z.max (len + i) 0 else Z.min i len.

(** [s.slice(start, finish)] for integer arguments. *)
Definition slice (s : jsstring) (start finish : Z) : jsstring :=
  let len := Z.of_nat (length s) in
  let from := sliceIndex len start in
  let to := sliceIndex len finish in
  if (from <? to)%Z
  then firstn (Z.to_nat (to - from)) (skipn (Z.to_nat from) s)
  else [].

Section TitleScript.

(** [location.hostname] and [location.pathname] *)
Variable hostname pathname : jsstring.

Definition prefix : jsstring := trimStart (hostname ++ js " - ").
Definition suffix : jsstring := trimEnd [].

Definition consistsOnlyOfTrimmedAffix (title : jsstring) : bool :=
  jsstring_eqb title (trim (prefix ++ suffix)).

Definition containsAffixes (title : jsstring) : bool :=
  starts_with prefix title && ends_with suffix title
  || consistsOnlyOfTrimmedAffix title.

Definition removeAffixes (title : jsstring) : jsstring :=
  if containsAffixes title
  then slice title (Z.of_nat (length prefix))
             (Z.of_nat (length title) - Z.of_nat (length suffix))
  else if consistsOnlyOfTrimmedAffix title then []
       else title.

Definition getTitleWithoutAffixes (title : jsstring) : jsstring :=
  let titleWithoutAffixes := removeAffixes title in
  if jsstring_eqb titleWithoutAffixes [] then pathname
  else titleWithoutAffixes.

End TitleScript.

(* ================================================================== *)
(** * Properties of the string operations                               *)
(* ================================================================== *)

Lemma is_digit_range c : is_digit c = true <-> (48 <= c <= 57)%N.
Proof.
  unfold is_digit. rewrite andb_true_iff, !N.leb_le. tauto.
Qed.

Lemma is_space_small c : (33 <= c < 160)%N -> is_space c = false.
Proof.
  intros Hc. unfold is_space. cbn [existsb].
  repeat match goal with
         | |- context [N.eqb c ?k] => destruct (N.eqb_spec c k); [lia |]
         end.
  cbn. destruct (N.leb_spec 8192 c); [lia | reflexivity].
Qed.

Lemma drop_while_stop p c s : p c = false -> drop_while p (c :: s) = c :: s.
Proof. intros Hp. cbn. now rewrite Hp. Qed.

Lemma drop_while_app_stop p a c b :
  p c = false -> drop_while p (a ++ c :: b) = drop_while p a ++ c :: b.
Proof.
  intros Hp. induction a as [|x a IH]; cbn.
  - now rewrite Hp.
  - destruct (p x); [exact IH | reflexivity].
Qed.

Lemma take_while_all p a b :
  forallb p a = true -> take_while p (a ++ b) = a ++ take_while p b.
Proof.
  induction a as [|x a IH]; cbn; [reflexivity |].
  intros Hall. apply andb_true_iff in Hall as [Hx Ha].
  rewrite Hx. f_equal. now apply IH.
Qed.

Lemma drop_while_all p a b :
  forallb p a = true -> drop_while p (a ++ b) = drop_while p b.
Proof.
  induction a as [|x a IH]; cbn; [reflexivity |].
  intros Hall. apply andb_true_iff in Hall as [Hx Ha].
  rewrite Hx. now apply IH.
Qed.

Lemma take_while_forallb p s : forallb p (take_while p s) = true.
Proof.
  induction s as [|x s IH]; cbn; [reflexivity |].
  destruct (p x) eqn:Hx; cbn; [now rewrite Hx | reflexivity].
Qed.

Lemma last_snoc (s : jsstring) c d : last (s ++ [c]) d = c.
Proof. apply last_last. Qed.

(** A string that is not empty and neither starts nor ends with white
    space is left alone by [trim]. *)
Lemma trim_id s :
  is_space (hd 0%N s) = false -> is_space (last s 0%N) = false -> trim s = s.
Proof.
  intros Hh Hl. unfold trim.
  destruct s as [|c s]; [reflexivity |].
  cbn [hd] in Hh. rewrite (drop_while_stop _ _ _ Hh).
  destruct (exists_last (l := c :: s)) as (body & z & Hz); [discriminate |].
  rewrite Hz in Hl |- *. rewrite last_snoc in Hl.
  rewrite rev_app_distr. cbn [rev app].
  rewrite (drop_while_stop _ _ _ Hl).
  change (z :: rev body) with (rev [z] ++ rev body).
  now rewrite <- rev_app_distr, rev_involutive.
Qed.

(** A string without the separator is one piece. *)
Lemma split_none sep s :
  forallb (fun c => negb (c =? sep)%N) s = true -> split sep s = [s].
Proof.
  induction s as [|c s IH]; cbn; [reflexivity |].
  intros Hall. apply andb_true_iff in Hall as [Hc Hs].
  apply negb_true_iff in Hc. rewrite Hc, (IH Hs). reflexivity.
Qed.

(** The first piece ends at the first separator. *)
Lemma split_app sep a b :
  forallb (fun c => negb (c =? sep)%N) a = true ->
  split sep (a ++ sep :: b) = a :: split sep b.
Proof.
  induction a as [|c a IH]; cbn.
  - intros _. now rewrite N.eqb_refl.
  - intros Hall. apply andb_true_iff in Hall as [Hc Ha].
    apply negb_true_iff in Hc. rewrite Hc, (IH Ha). reflexivity.
Qed.

(* ================================================================== *)
(** * The parser: the indexed loop and the token recursion agree        *)
(* ================================================================== *)

Lemma skipn_nth_error {A} (l : list A) i x :
  nth_error l i = Some x -> skipn i l = x :: skipn (S i) l.
Proof.
  revert i. induction l as [|y l IH]; intros [|i] Hn; cbn in *;
    try discriminate.
  - congruence.
  - now apply IH.
Qed.

Lemma element_in_range {A} (l : list A) i :
  (i < length l)%nat -> exists x, nth_error l i = Some x /\ element l i = Ret x.
Proof.
  intros Hi. unfold element.
  destruct (nth_error l i) as [x|] eqn:Hn.
  - now exists x.
  - apply nth_error_None in Hn. lia.
Qed.

(** With one unit of fuel per remaining token the indexed loop returns,
    never throws, and appends what the token recursion computes. *)
Lemma scanEntries_scanTokens fuel :
  forall entries i events,
    (length entries - i <= fuel)%nat ->
    scanEntries fuel entries i events
    = Ret (events ++ scanTokens (skipn i entries)).
Proof.
  induction fuel as [|fuel IH]; intros entries i events Hfuel.
  - cbn [scanEntries]. destruct (Nat.ltb_spec i (length entries)); [lia |].
    rewrite skipn_all2 by lia. cbn. now rewrite app_nil_r.
  - cbn [scanEntries].
    destruct (Nat.ltb_spec i (length entries)) as [Hi|Hi].
    2:{ rewrite skipn_all2 by lia. cbn. now rewrite app_nil_r. }
    destruct (element_in_range entries i Hi) as (e & Hn & He).
    rewrite He. cbn [bind].
    rewrite (skipn_nth_error _ _ _ Hn). cbn [scanTokens].
    rewrite Nat.add_1_r.
    destruct (matchHeader (trim e)) as [m|].
    2:{ apply IH. lia. }
    destruct (Nat.ltb_spec (S i) (length entries)) as [Hi'|Hi'].
    + destruct (element_in_range entries (S i) Hi') as (n & Hn' & He').
      rewrite He'. cbn [bind].
      rewrite (skipn_nth_error _ _ _ Hn').
      destruct (truthy (trim n) && negb (matchDatePrefix (trim n))).
      * rewrite Nat.add_1_r, IH by lia. now rewrite <- app_assoc.
      * rewrite IH by lia. now rewrite (skipn_nth_error _ _ _ Hn').
    + rewrite (skipn_all2 (n := S i)) by lia. rewrite IH by lia.
      now rewrite skipn_all2 by lia.
Qed.

Lemma tokenLoop_eq entries events :
  tokenLoop entries events = Ret (events ++ scanTokens entries).
Proof. unfold tokenLoop. now rewrite scanEntries_scanTokens by lia. Qed.

Lemma parseLine_eq line events :
  parseLine line events = Ret (events ++ lineEvents line).
Proof.
  unfold parseLine, lineEvents.
  destruct (truthy (trim line)); cbn [negb].
  - unfold tokenLoop. rewrite scanEntries_scanTokens by lia. reflexivity.
  - now rewrite app_nil_r.
Qed.

Lemma parseLines_eq lines :
  forall events,
    parseLines lines events = Ret (events ++ flat_map lineEvents lines).
Proof.
  induction lines as [|line rest IH]; intros events; cbn.
  - now rewrite app_nil_r.
  - rewrite parseLine_eq. cbn [bind]. rewrite IH. now rewrite <- app_assoc.
Qed.

Lemma parseSchedule_eq input :
  parseSchedule input = Ret (flat_map lineEvents (split LF (trim input))).
Proof. unfold parseSchedule. now rewrite parseLines_eq. Qed.

(** Induction over a token list two tokens at a time, as the scan
    consumes them. *)
Lemma token_ind (P : list jsstring -> Prop) :
  P [] -> (forall e, P [e]) ->
  (forall e n rest, P rest -> P (n :: rest) -> P (e :: n :: rest)) ->
  forall entries, P entries.
Proof.
  intros Hnil Hone Hstep.
  assert (Hboth : forall entries, P entries /\ forall e, P (e :: entries)).
  { induction entries as [|n rest [IH1 IH2]].
    - split; [exact Hnil | exact Hone].
    - split; [apply IH2 |]. intros e. apply Hstep; [exact IH1 | apply IH2]. }
  intros entries. apply Hboth.
Qed.

(* ================================================================== *)
(** * The regular expressions                                           *)
(* ================================================================== *)

Lemma digits_sound n : forall s d r,
  digits n s = Some (d, r) ->
  s = d ++ r /\ length d = n /\ forallb is_digit d = true.
Proof.
  induction n as [|n IH]; intros s d r Hm; cbn in Hm.
  - inversion Hm; subst. now cbn.
  - destruct s as [|c s]; [discriminate |].
    destruct (is_digit c) eqn:Hc; [| discriminate].
    destruct (digits n s) as [[d' r']|] eqn:Hd; [| discriminate].
    inversion Hm; subst. destruct (IH _ _ _ Hd) as (-> & Hlen & Hall).
    cbn. rewrite Hc, Hall, Hlen. now repeat split.
Qed.

Lemma lit_sound c s x r : lit c s = Some (x, r) -> x = [c] /\ s = c :: r.
Proof.
  unfold lit. destruct s as [|y s]; [discriminate |].
  destruct (N.eqb_spec y c); [| discriminate].
  intros Hm; inversion Hm; subst. now split.
Qed.

Lemma lit_complete c r : lit c (c :: r) = Some ([c], r).
Proof. unfold lit. now rewrite N.eqb_refl. Qed.

Lemma seq_sound m1 m2 s g r :
  seq m1 m2 s = Some (g, r) ->
  exists a b r1, m1 s = Some (a, r1) /\ m2 r1 = Some (b, r) /\ g = a ++ b.
Proof.
  unfold seq. destruct (m1 s) as [[a r1]|]; [| discriminate].
  destruct (m2 r1) as [[b r']|] eqn:H2; [| discriminate].
  intros Hm; inversion Hm; subst. exists a, b, r1. now rewrite H2.
Qed.

Lemma seq_complete (m1 m2 : matcher) s a r1 b r :
  m1 s = Some (a, r1) -> m2 r1 = Some (b, r) ->
  seq m1 m2 s = Some (a ++ b, r).
Proof. unfold seq. now intros -> ->. Qed.

Lemma digits1_sound s d r :
  digits1 s = Some (d, r) ->
  s = d ++ r /\ truthy d = true /\ forallb is_digit d = true
  /\ is_digit (hd 0%N r) = false.
Proof.
  unfold digits1. intros Hm.
  assert (Hsplit : s = take_while is_digit s ++ drop_while is_digit s).
  { clear. induction s as [|c s IH]; cbn; [reflexivity |].
    destruct (is_digit c); cbn; [now f_equal | reflexivity]. }
  assert (Hstop : is_digit (hd 0%N (drop_while is_digit s)) = false).
  { clear. induction s as [|c s IH]; cbn; [reflexivity |].
    destruct (is_digit c) eqn:Hc; [exact IH | exact Hc]. }
  pose proof (take_while_forallb is_digit s) as Hall.
  destruct (take_while is_digit s) as [|c ds] eqn:Ht; [discriminate |].
  inversion Hm; subst. now repeat split.
Qed.

Lemma digits1_complete d t :
  truthy d = true -> forallb is_digit d = true ->
  digits1 (d ++ t)
  = Some (d ++ take_while is_digit t, drop_while is_digit t).
Proof.
  intros Hne Hall. unfold digits1.
  rewrite (take_while_all _ _ _ Hall), (drop_while_all _ _ _ Hall).
  destruct d; [discriminate | reflexivity].
Qed.

Lemma dash_not_digit : is_digit DASH = false.
Proof. reflexivity. Qed.

(** The optional dash never needs the backtracking branch to succeed
    after a dash was read: a dash is not a digit. *)
Lemma optDashDigits_sound s g r :
  optDashDigits s = Some (g, r) ->
  s = g ++ r /\ truthy (roomDigits g) = true
  /\ forallb is_digit (roomDigits g) = true
  /\ is_digit (hd 0%N r) = false.
Proof.
  unfold optDashDigits.
  destruct (seq (lit DASH) digits1 s) as [[g' r']|] eqn:Hdash.
  - intros Hm; inversion Hm; subst.
    apply seq_sound in Hdash as (a & b & r1 & Ha & Hb & ->).
    apply lit_sound in Ha as [-> ->].
    apply digits1_sound in Hb as (-> & Hne & Hall & Hstop).
    cbn. now repeat split.
  - intros Hm. apply digits1_sound in Hm as (-> & Hne & Hall & Hstop).
    destruct g as [|c g]; [discriminate |].
    cbn in Hall. apply andb_true_iff in Hall as [Hc Hg].
    cbn [roomDigits].
    destruct (N.eqb_spec c DASH) as [->|_]; [now rewrite dash_not_digit in Hc |].
    cbn. rewrite Hc, Hg. now repeat split.
Qed.

Lemma optDashDigits_complete g t :
  truthy (roomDigits g) = true -> forallb is_digit (roomDigits g) = true ->
  optDashDigits (g ++ t)
  = Some (g ++ take_while is_digit t, drop_while is_digit t).
Proof.
  intros Hne Hall. unfold optDashDigits.
  destruct g as [|c g]; [discriminate |]. cbn [roomDigits] in Hne, Hall.
  destruct (N.eqb_spec c DASH) as [->|Hc].
  - cbn [app]. rewrite (seq_complete _ _ _ _ _ _ _ (lit_complete DASH _)
                          (digits1_complete g t Hne Hall)).
    reflexivity.
  - assert (Hnodash : seq (lit DASH) digits1 ((c :: g) ++ t) = None).
    { unfold seq, lit. cbn [app].
      destruct (N.eqb_spec c DASH); [congruence | reflexivity]. }
    rewrite Hnodash. now apply digits1_complete.
Qed.

Lemma roomRe_sound s g r :
  roomRe s = Some (g, r) ->
  s = g ++ r /\ isRoomToken LETTER_A g = true /\ is_digit (hd 0%N r) = false.
Proof.
  unfold roomRe. intros Hm.
  apply seq_sound in Hm as (a & b & r1 & Ha & Hb & ->).
  apply lit_sound in Ha as [-> ->].
  apply optDashDigits_sound in Hb as (-> & Hne & Hall & Hstop).
  cbn. rewrite Hne, Hall. now repeat split.
Qed.

Lemma roomRe_complete g t :
  isRoomToken LETTER_A g = true ->
  roomRe (g ++ t) = Some (g ++ take_while is_digit t, drop_while is_digit t).
Proof.
  unfold isRoomToken. destruct g as [|l rest]; [discriminate |].
  intros Hr. apply andb_true_iff in Hr as [Hr Hall].
  apply andb_true_iff in Hr as [Hl Hne]. apply N.eqb_eq in Hl as ->.
  unfold roomRe. cbn [app].
  rewrite (seq_complete _ _ _ _ _ _ _ (lit_complete LETTER_A _)
             (optDashDigits_complete rest t Hne Hall)).
  reflexivity.
Qed.

(** A room code of another letter is not matched. *)
Lemma roomRe_other_letter l rest :
  l <> LETTER_A -> roomRe (l :: rest) = None.
Proof.
  intros Hl. unfold roomRe, seq, lit.
  destruct (N.eqb_spec l LETTER_A); [congruence | reflexivity].
Qed.

Ltac split_andb :=
  repeat match goal with
         | H : _ && _ = true |- _ => apply andb_true_iff in H as [? ?]
         | H : (_ =? _)%N = true |- _ => apply N.eqb_eq in H; subst
         end.

Ltac exact_length l :=
  repeat (destruct l as [|? l]; [discriminate |]);
  destruct l; [| discriminate].

Lemma dateRe_sound s g r :
  dateRe s = Some (g, r) -> s = g ++ r /\ isDateToken g = true.
Proof.
  unfold dateRe. intros Hm.
  apply seq_sound in Hm as (y & g1 & r1 & Hy & Hm & ->).
  apply seq_sound in Hm as (s1 & g2 & r2 & Hs1 & Hm & ->).
  apply seq_sound in Hm as (m & g3 & r3 & Hmo & Hm & ->).
  apply seq_sound in Hm as (s2 & d & r4 & Hs2 & Hd & ->).
  apply digits_sound in Hy as (-> & Ly & Ay).
  apply lit_sound in Hs1 as [-> ->].
  apply digits_sound in Hmo as (-> & Lm & Am).
  apply lit_sound in Hs2 as [-> ->].
  apply digits_sound in Hd as (-> & Ld & Ad).
  split.
  - now rewrite <- !app_assoc.
  - exact_length y; exact_length m; exact_length d.
    cbn in Ay, Am, Ad |- *. split_andb.
    repeat match goal with H : is_digit _ = true |- _ => rewrite H; clear H end.
    reflexivity.
Qed.

Lemma dateRe_complete d r :
  isDateToken d = true -> dateRe (d ++ r) = Some (d, r).
Proof.
  unfold isDateToken. intros Hd.
  do 10 (destruct d as [|? d]; [discriminate |]).
  destruct d; [| discriminate].
  cbn [forallb] in Hd. split_andb.
  unfold dateRe, seq, lit, DASH.
  repeat (cbn; match goal with
               | H : is_digit ?c = true |- context [is_digit ?c] => rewrite H
               end).
  reflexivity.
Qed.

Lemma timeRe_sound s g r :
  timeRe s = Some (g, r) -> s = g ++ r /\ isTimeToken g = true.
Proof.
  unfold timeRe. intros Hm.
  apply seq_sound in Hm as (h & g1 & r1 & Hh & Hm & ->).
  apply seq_sound in Hm as (s1 & m & r2 & Hs1 & Hmi & ->).
  apply digits_sound in Hh as (-> & Lh & Ah).
  apply lit_sound in Hs1 as [-> ->].
  apply digits_sound in Hmi as (-> & Lm & Am).
  split.
  - now rewrite <- !app_assoc.
  - exact_length h; exact_length m.
    cbn in Ah, Am |- *. split_andb.
    repeat match goal with H : is_digit _ = true |- _ => rewrite H; clear H end.
    reflexivity.
Qed.

Lemma timeRe_complete t r :
  isTimeToken t = true -> timeRe (t ++ r) = Some (t, r).
Proof.
  unfold isTimeToken. intros Ht.
  do 5 (destruct t as [|? t]; [discriminate |]).
  destruct t; [| discriminate].
  cbn [forallb] in Ht. split_andb.
  unfold timeRe, seq, lit, COLON.
  repeat (cbn; match goal with
               | H : is_digit ?c = true |- context [is_digit ?c] => rewrite H
               end).
  reflexivity.
Qed.

(** The date test of the name lookahead looks at the first ten code
    units only. *)
Lemma matchDatePrefix_firstn nm :
  matchDatePrefix nm = isDateToken (firstn 10 nm).
Proof.
  unfold matchDatePrefix.
  destruct (dateRe nm) as [[g r]|] eqn:Hm.
  - apply dateRe_sound in Hm as [-> Hg].
    assert (Hlen : length g = 10%nat).
    { unfold isDateToken in Hg.
      do 10 (destruct g as [|? g]; [discriminate |]).
      destruct g; [reflexivity | discriminate]. }
    rewrite firstn_app, <- Hlen, firstn_all, Nat.sub_diag. cbn [firstn].
    now rewrite app_nil_r, Hg.
  - destruct (isDateToken (firstn 10 nm)) eqn:Hd; [| reflexivity].
    apply (dateRe_complete _ (skipn 10 nm)) in Hd.
    rewrite firstn_skipn in Hd. congruence.
Qed.

(** What a successful header match captured, and from where. *)
Lemma matchHeader_sound entry g1 g2 g3 g4 :
  matchHeader entry = Some (g1, g2, g3, g4) ->
  isDateToken g1 = true /\ isTimeToken g2 = true /\ isTimeToken g3 = true
  /\ isRoomToken LETTER_A g4 = true
  /\ exists tail, entry = headerToken g1 g2 g3 g4 ++ tail
                  /\ is_digit (hd 0%N tail) = false.
Proof.
  unfold matchHeader. intros Hm.
  destruct (dateRe entry) as [[d r1]|] eqn:H1; [| discriminate].
  destruct (lit PIPE r1) as [[p1 r2]|] eqn:H2; [| discriminate].
  destruct (timeRe r2) as [[s r3]|] eqn:H3; [| discriminate].
  destruct (lit PIPE r3) as [[p2 r4]|] eqn:H4; [| discriminate].
  destruct (timeRe r4) as [[e r5]|] eqn:H5; [| discriminate].
  destruct (lit PIPE r5) as [[p3 r6]|] eqn:H6; [| discriminate].
  destruct (roomRe r6) as [[rm r7]|] eqn:H7; [| discriminate].
  inversion Hm; subst.
  apply dateRe_sound in H1 as [-> Hd].
  apply lit_sound in H2 as [-> ->].
  apply timeRe_sound in H3 as [-> Hs].
  apply lit_sound in H4 as [-> ->].
  apply timeRe_sound in H5 as [-> He].
  apply lit_sound in H6 as [-> ->].
  apply roomRe_sound in H7 as (-> & Hr & Hstop).
  repeat split; try assumption.
  exists r7. split; [| exact Hstop].
  unfold headerToken. now rewrite <- !app_assoc.
Qed.

(** A header cell is matched whatever follows it; the room group also
    takes the digits that follow. *)
Lemma matchHeader_complete d s e r tail :
  isDateToken d = true -> isTimeToken s = true -> isTimeToken e = true ->
  isRoomToken LETTER_A r = true ->
  matchHeader (headerToken d s e r ++ tail)
  = Some (d, s, e, r ++ take_while is_digit tail).
Proof.
  intros Hd Hs He Hr. unfold matchHeader, headerToken.
  rewrite <- !app_assoc.
  rewrite (dateRe_complete _ _ Hd). cbn [app]. rewrite lit_complete.
  rewrite (timeRe_complete _ _ Hs). cbn [app]. rewrite lit_complete.
  rewrite (timeRe_complete _ _ He). cbn [app]. rewrite lit_complete.
  now rewrite (roomRe_complete _ _ Hr).
Qed.

(* ================================================================== *)
(** * Parser: the shape of the emitted events                           *)
(* ================================================================== *)

Lemma digit_not_dash c : is_digit c = true -> (c =? DASH)%N = false.
Proof.
  intros Hc. apply is_digit_range in Hc. apply N.eqb_neq. unfold DASH. lia.
Qed.

Lemma remove_first_digits s :
  forallb is_digit s = true -> remove_first DASH s = s.
Proof.
  induction s as [|c s IH]; cbn; [reflexivity |].
  intros Hall. apply andb_true_iff in Hall as [Hc Hs].
  now rewrite (digit_not_dash _ Hc), (IH Hs).
Qed.

Lemma stripDashes_digits s :
  forallb is_digit s = true -> stripDashes s = s.
Proof.
  unfold stripDashes. induction s as [|c s IH]; cbn; [reflexivity |].
  intros Hall. apply andb_true_iff in Hall as [Hc Hs].
  rewrite (digit_not_dash _ Hc). cbn. now rewrite (IH Hs).
Qed.

Lemma hasDash_digits s : forallb is_digit s = true -> hasDash s = false.
Proof.
  unfold hasDash. induction s as [|c s IH]; cbn [existsb forallb];
    [reflexivity |].
  intros Hall. apply andb_true_iff in Hall as [Hc Hs].
  rewrite N.eqb_sym, (digit_not_dash _ Hc). now apply IH.
Qed.

(** Removing the first dash of a matched room code removes its only
    dash and leaves the letter A followed by digits. *)
Lemma room_normalized g :
  isRoomToken LETTER_A g = true ->
  remove_first DASH g = LETTER_A :: roomDigits (tl g)
  /\ stripDashes g = LETTER_A :: roomDigits (tl g)
  /\ forallb is_digit (roomDigits (tl g)) = true.
Proof.
  unfold isRoomToken. destruct g as [|l rest]; [discriminate |].
  intros Hr. apply andb_true_iff in Hr as [Hr Hall].
  apply andb_true_iff in Hr as [Hl Hne]. apply N.eqb_eq in Hl as ->.
  cbn [tl]. split; [| split; [| exact Hall]].
  - cbn. f_equal. destruct rest as [|c ds]; [reflexivity |].
    cbn in Hall |- *. destruct (c =? DASH)%N eqn:Hc; [reflexivity |].
    cbn in Hall. apply andb_true_iff in Hall as [_ Hds].
    now rewrite (remove_first_digits _ Hds).
  - unfold stripDashes. cbn. f_equal. destruct rest as [|c ds]; [reflexivity |].
    cbn in Hall |- *. destruct (c =? DASH)%N eqn:Hc; cbn.
    + now apply stripDashes_digits.
    + cbn in Hall. apply andb_true_iff in Hall as [_ Hds].
      f_equal. now apply stripDashes_digits.
Qed.

Lemma eventOf_invariant e n g :
  matchHeader e = Some g -> validName n = true ->
  eventInvariant (eventOf g (trim n)) = true.
Proof.
  destruct g as [[[g1 g2] g3] g4]. intros Hm Hn.
  apply matchHeader_sound in Hm as (_ & _ & _ & Hr & _).
  destruct (room_normalized _ Hr) as (Hrm & _ & Hall).
  unfold validName in Hn. apply andb_true_iff in Hn as [Ht Hd].
  unfold eventInvariant, eventOf. cbn [room name].
  rewrite Hrm. cbn [roomIsAThenDigits]. rewrite N.eqb_refl, Hall.
  unfold hasDash. cbn [existsb]. fold (hasDash (roomDigits (tl g4))).
  rewrite (hasDash_digits _ Hall), Ht.
  unfold startsWithDate. rewrite <- matchDatePrefix_firstn, Hd. reflexivity.
Qed.

Lemma scanTokens_invariant entries :
  Forall (fun ev => eventInvariant ev = true) (scanTokens entries).
Proof.
  induction entries as [| e | e n rest IH1 IH2] using token_ind.
  - constructor.
  - cbn. destruct (matchHeader (trim e)); constructor.
  - cbn [scanTokens]. destruct (matchHeader (trim e)) as [g|] eqn:Hm.
    2:{ exact IH2. }
    fold (validName n). destruct (validName n) eqn:Hn.
    + constructor; [| exact IH1].
      apply (eventOf_invariant (trim e)); assumption.
    + exact IH2.
Qed.

Lemma lineEvents_invariant line :
  Forall (fun ev => eventInvariant ev = true) (lineEvents line).
Proof.
  unfold lineEvents. destruct (truthy (trim line)).
  - apply scanTokens_invariant.
  - constructor.
Qed.

(** C10. Every event returned by [parseSchedule] has a room made of the
    letter A followed by digits only, with no dash, and a name that is
    not empty and does not begin with a YYYY-MM-DD date; and
    [parseSchedule] does return, for every input. *)
Theorem parsed_events_invariant (input : jsstring) :
  exists events,
    parseSchedule input = Ret events
    /\ Forall (fun ev => eventInvariant ev = true) events.
Proof.
  exists (flat_map lineEvents (split LF (trim input))).
  split; [apply parseSchedule_eq |].
  induction (split LF (trim input)) as [|line rest IH]; cbn.
  - constructor.
  - apply Forall_app. split; [apply lineEvents_invariant | exact IH].
Qed.

(* ================================================================== *)
(** * Parser: well-formed lines                                         *)
(* ================================================================== *)

Lemma plain_range c : plain c = true <-> (33 <= c < 160)%N.
Proof.
  unfold plain. rewrite andb_true_iff, N.leb_le, N.ltb_lt. tauto.
Qed.

Lemma plain_not_space c : plain c = true -> is_space c = false.
Proof. intros Hc. apply is_space_small. now apply plain_range. Qed.

Lemma plain_not_sep c sep :
  (sep < 33)%N -> plain c = true -> negb (c =? sep)%N = true.
Proof.
  intros Hsep Hc. apply plain_range in Hc.
  apply negb_true_iff, N.eqb_neq. lia.
Qed.

Lemma digit_plain c : is_digit c = true -> plain c = true.
Proof. intros Hc. apply is_digit_range in Hc. apply plain_range. lia. Qed.

Lemma digits_plain s : forallb is_digit s = true -> forallb plain s = true.
Proof.
  induction s as [|c s IH]; cbn; [reflexivity |].
  intros Hall. apply andb_true_iff in Hall as [Hc Hs].
  now rewrite (digit_plain _ Hc), (IH Hs).
Qed.

Lemma date_plain d : isDateToken d = true -> forallb plain d = true.
Proof.
  unfold isDateToken. intros Hd.
  do 10 (destruct d as [|? d]; [discriminate |]).
  destruct d; [| discriminate].
  cbn [forallb] in Hd |- *. split_andb.
  repeat match goal with
         | H : is_digit _ = true |- _ => rewrite (digit_plain _ H); clear H
         end.
  reflexivity.
Qed.

Lemma time_plain t : isTimeToken t = true -> forallb plain t = true.
Proof.
  unfold isTimeToken. intros Ht.
  do 5 (destruct t as [|? t]; [discriminate |]).
  destruct t; [| discriminate].
  cbn [forallb] in Ht |- *. split_andb.
  repeat match goal with
         | H : is_digit _ = true |- _ => rewrite (digit_plain _ H); clear H
         end.
  reflexivity.
Qed.

Lemma room_plain l r :
  is_letter l = true -> isRoomToken l r = true -> forallb plain r = true.
Proof.
  unfold isRoomToken. intros Hl Hr. destruct r as [|x rest]; [discriminate |].
  apply andb_true_iff in Hr as [Hr Hall].
  apply andb_true_iff in Hr as [Hx _]. apply N.eqb_eq in Hx as ->.
  cbn [forallb]. apply andb_true_iff. split.
  - unfold is_letter in Hl. apply plain_range.
    apply orb_true_iff in Hl as [Hl|Hl];
      apply andb_true_iff in Hl as [H1 H2];
      apply N.leb_le in H1, H2; lia.
  - destruct rest as [|c ds]; [reflexivity |]. cbn [roomDigits] in Hall.
    destruct (N.eqb_spec c DASH) as [->|_].
    + cbn [forallb]. now rewrite (digits_plain _ Hall).
    + now apply digits_plain.
Qed.

Lemma header_plain d s e l r :
  isDateToken d = true -> isTimeToken s = true -> isTimeToken e = true ->
  is_letter l = true -> isRoomToken l r = true ->
  forallb plain (headerToken d s e r) = true.
Proof.
  intros Hd Hs He Hl Hr. unfold headerToken.
  rewrite !forallb_app, (date_plain _ Hd), (time_plain _ Hs),
    (time_plain _ He), (room_plain _ _ Hl Hr).
  reflexivity.
Qed.

Lemma header_not_nil d s e r : isDateToken d = true -> headerToken d s e r <> [].
Proof.
  unfold headerToken. destruct d; [discriminate |]. intros _. discriminate.
Qed.

Lemma forallb_hd (p : N -> bool) s :
  s <> [] -> forallb p s = true -> p (hd 0%N s) = true.
Proof.
  destruct s as [|c s]; [congruence |]. cbn. intros _ Hall.
  now apply andb_true_iff in Hall as [Hc _].
Qed.

Lemma forallb_last (p : N -> bool) s :
  s <> [] -> forallb p s = true -> p (last s 0%N) = true.
Proof.
  intros Hne Hall.
  destruct (exists_last Hne) as (body & z & ->).
  rewrite last_snoc. rewrite forallb_app in Hall.
  apply andb_true_iff in Hall as [_ Hz]. cbn in Hz.
  now apply andb_true_iff in Hz as [Hz _].
Qed.

Lemma forallb_weaken (p q : N -> bool) s :
  (forall c, p c = true -> q c = true) ->
  forallb p s = true -> forallb q s = true.
Proof.
  intros Hpq. induction s as [|c s IH]; cbn; [reflexivity |].
  intros Hall. apply andb_true_iff in Hall as [Hc Hs].
  now rewrite (Hpq _ Hc), (IH Hs).
Qed.

(** A string of plain code units is trimmed already. *)
Lemma trim_plain s : forallb plain s = true -> trim s = s.
Proof.
  intros Hall. destruct s as [|c s]; [reflexivity |].
  apply trim_id; apply plain_not_space.
  - apply forallb_hd; [discriminate | exact Hall].
  - apply forallb_last; [discriminate | exact Hall].
Qed.

Lemma last_app_r (a b : jsstring) d : b <> [] -> last (a ++ b) d = last b d.
Proof.
  intros Hne. destruct (exists_last Hne) as (body & z & ->).
  now rewrite app_assoc, !last_snoc.
Qed.

Lemma nameToken_facts nm :
  isNameToken nm = true ->
  nm <> [] /\ trim nm = nm /\ validName nm = true
  /\ forallb (fun c => negb (c =? TAB)%N) nm = true
  /\ forallb (fun c => negb (c =? LF)%N) nm = true
  /\ is_space (last nm 0%N) = false.
Proof.
  unfold isNameToken. intros Hn.
  apply andb_true_iff in Hn as [Hn Hdate].
  apply andb_true_iff in Hn as [Hn Hsep].
  apply andb_true_iff in Hn as [Hn Hlast].
  apply andb_true_iff in Hn as [Hne Hfirst].
  apply negb_true_iff in Hfirst, Hlast.
  assert (Htrim : trim nm = nm) by now apply trim_id.
  repeat split.
  - destruct nm; [discriminate | discriminate].
  - exact Htrim.
  - unfold validName. now rewrite Htrim, Hne, Hdate.
  - revert Hsep. apply forallb_weaken. intros c Hc.
    now apply andb_true_iff in Hc as [Hc _].
  - revert Hsep. apply forallb_weaken. intros c Hc.
    now apply andb_true_iff in Hc as [_ Hc].
  - exact Hlast.
Qed.

Lemma letter_A : is_letter LETTER_A = true.
Proof. reflexivity. Qed.

Lemma matchHeader_other_letter d s e l rest tail :
  isDateToken d = true -> isTimeToken s = true -> isTimeToken e = true ->
  l <> LETTER_A ->
  matchHeader (headerToken d s e (l :: rest) ++ tail) = None.
Proof.
  intros Hd Hs He Hl. unfold matchHeader, headerToken.
  rewrite <- !app_assoc.
  rewrite (dateRe_complete _ _ Hd). cbn [app]. rewrite lit_complete.
  rewrite (timeRe_complete _ _ Hs). cbn [app]. rewrite lit_complete.
  rewrite (timeRe_complete _ _ He). cbn [app]. rewrite lit_complete.
  now rewrite (roomRe_other_letter _ _ Hl).
Qed.

(** The tokens of a line made of a header cell, a tab and a name cell. *)
Lemma entriesOf_pair d s e l r nm :
  isDateToken d = true -> isTimeToken s = true -> isTimeToken e = true ->
  is_letter l = true -> isRoomToken l r = true -> isNameToken nm = true ->
  entriesOf (headerToken d s e r ++ [TAB] ++ nm) = [headerToken d s e r; nm].
Proof.
  intros Hd Hs He Hl Hr Hn.
  pose proof (header_plain _ _ _ _ _ Hd Hs He Hl Hr) as Hplain.
  destruct (nameToken_facts _ Hn) as (Hne & Htrim & _ & Htab & _ & _).
  unfold entriesOf. cbn [app].
  rewrite split_app.
  2:{ revert Hplain. apply forallb_weaken. intros c.
      now apply plain_not_sep. }
  rewrite (split_none _ _ Htab). cbn [filter].
  rewrite (trim_plain _ Hplain), Htrim.
  destruct (headerToken d s e r) eqn:Hh;
    [now apply header_not_nil in Hh |].
  destruct nm; [congruence | reflexivity].
Qed.

(** C5, as the code has it. A line made of a header cell
    [date|start|end|room] (room: a letter, an optional dash, digits), a
    tab and a name cell parses to exactly one event when the letter of
    the room code is A: its date, times and name are the cells' and its
    room is the room code without the dash. With any other letter the
    line parses to no event. *)
Theorem well_formed_line_one_event (d s e r nm : jsstring) (l : N) :
  isDateToken d = true -> isTimeToken s = true -> isTimeToken e = true ->
  is_letter l = true -> isRoomToken l r = true -> isNameToken nm = true ->
  parseSchedule (headerToken d s e r ++ [TAB] ++ nm)
  = Ret (if (l =? LETTER_A)%N
         then [ {| date := d; startTime := s; endTime := e;
                   room := stripDashes r; name := nm |} ]
         else []).
Proof.
  intros Hd Hs He Hl Hr Hn.
  pose proof (header_plain _ _ _ _ _ Hd Hs He Hl Hr) as Hplain.
  pose proof (header_not_nil d s e r Hd) as Hhne.
  destruct (nameToken_facts _ Hn) as (Hne & Htrim & Hvalid & _ & Hlf & Hlast).
  set (line := headerToken d s e r ++ [TAB] ++ nm).
  assert (Hline : trim line = line).
  { apply trim_id.
    - unfold line. destruct (headerToken d s e r) as [|c h] eqn:Hh;
        [congruence |].
      cbn [app hd]. apply plain_not_space.
      change c with (hd 0%N (c :: h)). apply forallb_hd; [discriminate |].
      exact Hplain.
    - unfold line. rewrite app_assoc, last_app_r by exact Hne. exact Hlast. }
  assert (Hone : split LF line = [line]).
  { apply split_none. unfold line. rewrite !forallb_app.
    rewrite Hlf. cbn [forallb].
    replace (forallb (fun c => negb (c =? LF)%N) (headerToken d s e r))
      with true; [reflexivity |].
    symmetry. revert Hplain. apply forallb_weaken. intros c.
    now apply plain_not_sep. }
  rewrite parseSchedule_eq, Hline, Hone. cbn [flat_map].
  rewrite app_nil_r. unfold lineEvents. rewrite Hline.
  replace (truthy line) with true
    by (unfold line; destruct (headerToken d s e r); [congruence | reflexivity]).
  unfold line. rewrite (entriesOf_pair _ _ _ _ _ _ Hd Hs He Hl Hr Hn).
  cbn [scanTokens]. rewrite (trim_plain _ Hplain).
  rewrite <- (app_nil_r (headerToken d s e r)).
  destruct (N.eqb_spec l LETTER_A) as [->|Hother].
  - rewrite (matchHeader_complete _ _ _ _ [] Hd Hs He Hr).
    fold (validName nm). rewrite Hvalid, Htrim. cbn [take_while].
    rewrite app_nil_r. unfold eventOf.
    destruct (room_normalized _ Hr) as (-> & -> & _). reflexivity.
  - destruct r as [|x r']; [discriminate |].
    assert (x = l) as ->.
    { cbn in Hr. apply andb_true_iff in Hr as [Hr _].
      apply andb_true_iff in Hr as [Hx _]. now apply N.eqb_eq in Hx. }
    rewrite (matchHeader_other_letter _ _ _ _ _ _ Hd Hs He Hother).
    now destruct (matchHeader (trim nm)).
Qed.

(** The theorem at a line with a dash in the room code, for the letter A
    and for a lower-case letter. *)
Lemma well_formed_line_one_event_witness :
  isDateToken (js "2024-03-10") = true /\ isTimeToken (js "09:00") = true
  /\ isTimeToken (js "10:00") = true
  /\ is_letter LETTER_A = true /\ is_letter 99%N = true
  /\ isRoomToken LETTER_A (js "A-101") = true
  /\ isRoomToken 99%N (js "c-101") = true
  /\ isNameToken (js "Ana Anic") = true
  /\ parseSchedule (js "2024-03-10|09:00|10:00|A-101	Ana Anic")
     = Ret [ {| date := js "2024-03-10"; startTime := js "09:00";
                endTime := js "10:00"; room := js "A101";
                name := js "Ana Anic" |} ]
  /\ parseSchedule (js "2024-03-10|09:00|10:00|c-101	Ana Anic") = Ret [].
Proof.
  do 8 (split; [reflexivity |]). split.
  - exact (well_formed_line_one_event
             (js "2024-03-10") (js "09:00") (js "10:00") (js "A-101")
             (js "Ana Anic") LETTER_A
             eq_refl eq_refl eq_refl eq_refl eq_refl eq_refl).
  - exact (well_formed_line_one_event
             (js "2024-03-10") (js "09:00") (js "10:00") (js "c-101")
             (js "Ana Anic") 99%N
             eq_refl eq_refl eq_refl eq_refl eq_refl eq_refl).
Defined.

(** A line of the input format, its room code starting with B: every
    cell has the shape the format asks for, and the line parses to no
    event. *)
Lemma well_formed_line_one_event_counterexample :
  isDateToken (js "2024-03-10") = true /\ isTimeToken (js "09:00") = true
  /\ isTimeToken (js "10:00") = true
  /\ is_letter 66%N = true
  /\ isRoomToken 66%N (js "B-101") = true
  /\ isNameToken (js "Ana Anic") = true
  /\ parseSchedule
       (headerToken (js "2024-03-10") (js "09:00") (js "10:00") (js "B-101")
        ++ [TAB] ++ js "Ana Anic")
     = Ret [].
Proof. vm_compute. repeat split. Qed.

(* ================================================================== *)
(** * Parser: skipped tokens                                            *)
(* ================================================================== *)

Lemma scanTokens_skip_nonheader e rest :
  isHeader e = false -> scanTokens (e :: rest) = scanTokens rest.
Proof.
  unfold isHeader. cbn [scanTokens].
  destruct (matchHeader (trim e)); [discriminate | reflexivity].
Qed.

Lemma scanTokens_skip_noname e rest :
  followedByName rest = false -> scanTokens (e :: rest) = scanTokens rest.
Proof.
  cbn [scanTokens]. destruct (matchHeader (trim e)); [| reflexivity].
  destruct rest as [|n rest']; [reflexivity |].
  cbn [followedByName]. unfold validName. now intros ->.
Qed.




(** C6. [parseSchedule] returns for every input and never throws; in the
    token loop a token that is not a slot header, and a token that is
    not followed by a usable name, is passed over without an event. *)
Theorem parse_total_and_skips :
  (forall input, exists events, parseSchedule input = Ret events)
  /\ (forall e rest events,
        isHeader e = false ->
        tokenLoop (e :: rest) events = tokenLoop rest events)
  /\ (forall e rest events,
        followedByName rest = false ->
        tokenLoop (e :: rest) events = tokenLoop rest events).
Proof.
  split; [| split].
  - intros input. eexists. apply parseSchedule_eq.
  - intros e rest events He. rewrite !tokenLoop_eq.
    now rewrite (scanTokens_skip_nonheader _ _ He).
  - intros e rest events Hn. rewrite !tokenLoop_eq.
    now rewrite (scanTokens_skip_noname _ _ Hn).
Qed.

Lemma parse_total_and_skips_witness :
  (exists events, parseSchedule (js "2024-03-10|09:00|10:00|A1") = Ret events)
  /\ (isHeader (js "room A1") = false
      /\ tokenLoop [js "room A1"; js "Ana Anic"] []
         = tokenLoop [js "Ana Anic"] [])
  /\ (followedByName [js "2024-03-11 Ana"] = false
      /\ tokenLoop [js "2024-03-10|09:00|10:00|A1"; js "2024-03-11 Ana"] []
         = tokenLoop [js "2024-03-11 Ana"] []).
Proof.
  destruct parse_total_and_skips as (Htotal & Hhead & Hname).
  split; [apply Htotal |].
  split; (split; [reflexivity |]).
  - apply Hhead. reflexivity.
  - apply Hname. reflexivity.
Defined.




(* ================================================================== *)
(** * Parser: which room codes make a slot header                       *)
(* ================================================================== *)

Lemma take_while_stop p s : p (hd 0%N s) = false -> take_while p s = [].
Proof.
  destruct s as [|c s]; [reflexivity |]. cbn. now intros ->.
Qed.

(** C3, as the code has it. A token that starts with
    [date|HH:MM|HH:MM|room], where the room code is the letter A, an
    optional dash and digits, is a slot header, and with a usable name
    after it an event is emitted; a token of the same form whose room
    code starts with any other letter is passed over. *)
Theorem header_room_letter (d s e r tail tok : jsstring)
    (rest : list jsstring) (events : list Event) :
  isDateToken d = true -> isTimeToken s = true -> isTimeToken e = true ->
  trim tok = headerToken d s e r ++ tail ->
  (isRoomToken LETTER_A r = true ->
   is_digit (hd 0%N tail) = false ->
   forall nm, validName nm = true ->
   tokenLoop (tok :: nm :: rest) events
   = tokenLoop rest
       (events ++ [ {| date := d; startTime := s; endTime := e;
                       room := stripDashes r; name := trim nm |} ]))
  /\ (forall l, l <> LETTER_A -> isRoomToken l r = true ->
      tokenLoop (tok :: rest) events = tokenLoop rest events).
Proof.
  intros Hd Hs He Htok. split.
  - intros Hr Htail nm Hnm. rewrite !tokenLoop_eq. cbn [scanTokens].
    rewrite Htok, (matchHeader_complete _ _ _ _ tail Hd Hs He Hr).
    fold (validName nm). rewrite Hnm.
    rewrite (take_while_stop _ _ Htail), app_nil_r. unfold eventOf.
    destruct (room_normalized _ Hr) as (-> & -> & _).
    now rewrite <- app_assoc.
  - intros l Hl Hr. rewrite !tokenLoop_eq.
    rewrite scanTokens_skip_nonheader; [reflexivity |].
    unfold isHeader. rewrite Htok.
    destruct r as [|x r']; [discriminate |].
    assert (x = l) as ->.
    { cbn in Hr. apply andb_true_iff in Hr as [Hr _].
      apply andb_true_iff in Hr as [Hx _]. now apply N.eqb_eq in Hx. }
    now rewrite (matchHeader_other_letter _ _ _ _ _ _ Hd Hs He Hl).
Qed.

Lemma header_room_letter_witness :
  let tok := js " 2024-03-10|09:00|10:00|A-7 (lab)" in
  let other := js "2024-03-10|09:00|10:00|b7" in
  (trim tok = headerToken (js "2024-03-10") (js "09:00") (js "10:00")
                (js "A-7") ++ js " (lab)"
   /\ validName (js "Ana Anic ") = true
   /\ tokenLoop [tok; js "Ana Anic "] []
      = tokenLoop []
          [ {| date := js "2024-03-10"; startTime := js "09:00";
               endTime := js "10:00"; room := js "A7";
               name := js "Ana Anic" |} ])
  /\ (trim other = headerToken (js "2024-03-10") (js "09:00") (js "10:00")
                     (js "b7") ++ []
      /\ isRoomToken 98%N (js "b7") = true
      /\ tokenLoop [other; js "Ana Anic"] [] = tokenLoop [js "Ana Anic"] []).
Proof.
  intros tok other. split.
  - split; [reflexivity |]. split; [reflexivity |].
    apply (header_room_letter (js "2024-03-10") (js "09:00") (js "10:00")
             (js "A-7") (js " (lab)") tok [] []); reflexivity.
  - split; [reflexivity |]. split; [reflexivity |].
    apply (header_room_letter (js "2024-03-10") (js "09:00") (js "10:00")
             (js "b7") [] other [js "Ana Anic"] []) with (l := 98%N);
      try reflexivity.
    discriminate.
Defined.

(** A room code starting with B: the line has the form of the input
    format and no event is emitted. *)
Lemma header_room_letter_counterexample :
  is_letter 66%N = true
  /\ isRoomToken 66%N (js "B1") = true
  /\ isNameToken (js "Ana Anic") = true
  /\ parseSchedule
       (headerToken (js "2024-03-10") (js "09:00") (js "10:00") (js "B1")
        ++ [TAB] ++ js "Ana Anic")
     = Ret [].
Proof. vm_compute. repeat split. Qed.

Section EngineFacts.

Context {H : Host}.

Lemma pollOpen_pollUntil fuel timeout start w :
  pollOpen fuel timeout start w
  = pollUntil dialogVisible (js "Dialog timeout") fuel timeout start w.
Proof.
  revert w. induction fuel as [|fuel IH]; intros w; cbn; [reflexivity |].
  now rewrite IH.
Qed.

Lemma pollClose_pollUntil fuel timeout start w :
  pollClose fuel timeout start w
  = pollUntil dialogClosed (js "Dialog close timeout") fuel timeout start w.
Proof.
  revert w. induction fuel as [|fuel IH]; intros w; cbn; [reflexivity |].
  now rewrite IH.
Qed.

Hypothesis progress : timersProgress H.

(** A wait settles once the fuel covers the time left to the timeout. *)
Lemma pollUntil_settles test message timeout start fuel :
  forall w,
    (0 <= timeout - (now w - start) < pollInterval * Z.of_nat fuel)%Z ->
    exists r w', pollUntil test message fuel timeout start w = Ret (r, w').
Proof.
  unfold pollInterval.
  induction fuel as [|fuel IH]; intros w Hleft; [lia |].
  cbn [pollUntil].
  destruct (test (document (elapse pollInterval w))); [now eexists; eexists |].
  destruct (Z.gtb_spec (now (elapse pollInterval w) - start) timeout);
    [now eexists; eexists |].
  apply IH. pose proof (progress pollInterval w) as Hp.
  unfold pollInterval in *. lia.
Qed.

(** A wait whose test fails at every poll it makes is rejected, at the
    first poll later than the timeout. *)
Lemma pollUntil_rejects test message timeout start fuel :
  forall w,
    (0 <= timeout - (now w - start) < pollInterval * Z.of_nat fuel)%Z ->
    (forall k, (now (polls k w) - start <= timeout)%Z ->
               test (document (polls (S k) w)) = false) ->
    exists n, (1 <= n <= fuel)%nat
      /\ (now (polls n w) - start > timeout)%Z
      /\ pollUntil test message fuel timeout start w
         = Ret (Rejected message, polls n w).
Proof.
  unfold pollInterval.
  induction fuel as [|fuel IH]; intros w Hleft Hnever; [lia |].
  cbn [pollUntil].
  pose proof (Hnever 0%nat) as Hfirst. cbn [polls] in Hfirst.
  rewrite Hfirst by lia.
  destruct (Z.gtb_spec (now (elapse pollInterval w) - start) timeout)
    as [Hlate|Hearly].
  - exists 1%nat. cbn [polls]. repeat split; try lia.
  - destruct (IH (elapse pollInterval w)) as (n & Hn & Hlate & Hrun).
    + pose proof (progress pollInterval w) as Hp.
      unfold pollInterval in *. lia.
    + intros k Hk. apply (Hnever (S k)). exact Hk.
    + exists (S n). cbn [polls]. repeat split; try lia. exact Hrun.
Qed.

End EngineFacts.

(* ================================================================== *)
(** * Counting the entries of a report                                  *)
(* ================================================================== *)













Lemma recordAll_sequences l : forall r,
  success (recordAll l r) = success r ++ descriptionsWith isSuccess l
  /\ alreadyAssigned (recordAll l r)
     = alreadyAssigned r ++ descriptionsWith isAlreadyAssigned l
  /\ slotNotFound (recordAll l r)
     = slotNotFound r ++ descriptionsWith isSlotNotFound l
  /\ personNotFound (recordAll l r)
     = personNotFound r ++ descriptionsWith isPersonNotFound l
  /\ errors (recordAll l r) = errors r ++ errorEntries l.
Proof.
  unfold recordAll, descriptionsWith, errorEntries.
  induction l as [|[ev o] l IH]; intros r.
  - cbn. now rewrite !app_nil_r.
  - cbn [fold_left fst snd]. destruct (IH (record o (describe ev) r))
      as (H1 & H2 & H3 & H4 & H5).
    rewrite H1, H2, H3, H4, H5.
    destruct o; cbn; rewrite <- ?app_assoc; repeat split; reflexivity.
Qed.



(* ================================================================== *)
(** * The batch processor                                               *)
(* ================================================================== *)

Section Processor.

Context {H : Host}.

(** The turn for an event whose slot is not found: one entry, and
    nothing else happens. *)
Lemma processEvent_slot_not_found fuel event st :
  findMatchingDiv (document (world st)) event = None ->
  processEvent fuel event st
  = Ret (mkState (world st)
                 (pushSlotNotFound (describe event) (results st))
                 (calls st ++ [Locate event])).
Proof. unfold processEvent. now intros ->. Qed.

Lemma pollUntil_rejected_message test message timeout start fuel :
  forall w m w',
    pollUntil test message fuel timeout start w = Ret (Rejected m, w') ->
    m = message.
Proof.
  induction fuel as [|fuel IH]; intros w m w' Hrun; [discriminate |].
  cbn [pollUntil] in Hrun.
  destruct (test (document (elapse pollInterval w))); [discriminate |].
  destruct (now (elapse pollInterval w) - start >? timeout)%Z.
  - now inversion Hrun.
  - now apply IH in Hrun.
Qed.

Lemma countClicks_app a b :
  countClicks (a ++ b) = (countClicks a + countClicks b)%nat.
Proof. unfold countClicks. now rewrite filter_app, length_app. Qed.

(** One turn that returns: the pushes of one outcome, the log extended,
    at most two clicks; an error carries the message of a wait, and a
    failed close click the message of the engine. *)
Lemma processEvent_ret fuel event st st' :
  processEvent fuel event st = Ret st' ->
  exists o extra,
    results st' = record o (describe event) (results st)
    /\ calls st' = calls st ++ extra
    /\ (countClicks extra <= 2)%nat
    /\ explained H o.
Proof.
  unfold processEvent, timeoutMessage.
  destruct (findMatchingDiv (document (world st)) event) as [btn|].
  2:{ intros Hrun; inversion Hrun; subst. exists SlotNotFound. eexists.
      cbn [results calls]. repeat split; cbn; lia. }
  destruct (isPersonAlreadyAssigned (document (world st)) btn (name event)).
  { intros Hrun; inversion Hrun; subst. exists AlreadyAssigned. eexists.
    cbn [results calls]. rewrite <- !app_assoc.
    repeat split; cbn; lia. }
  unfold waitForDialog. rewrite pollOpen_pollUntil.
  destruct (pollUntil dialogVisible (js "Dialog timeout") fuel defaultTimeout
              (now (click btn (world st))) (click btn (world st)))
    as [[r w1]| |] eqn:Hopen; cbn [bind]; try discriminate.
  destruct r as [|m].
  2:{ intros Hrun; inversion Hrun; subst. exists (Error m). eexists.
      cbn [results calls]. rewrite <- !app_assoc.
      repeat split; [cbn; lia |].
      cbn [explained]. left.
      now apply pollUntil_rejected_message in Hopen. }
  destruct (findPersonInDialog (document (elapse 300 w1)) (name event))
    as [person|].
  2:{ destruct (findCloseButton (document (elapse 300 w1))) as [closeBtn|]
        eqn:Hclose.
      - destruct (hasClickMethod (document (elapse 300 w1)) closeBtn)
          eqn:Hmethod.
        + intros Hrun; inversion Hrun; subst; exists PersonNotFound; eexists.
          cbn [results calls]; rewrite <- !app_assoc.
          repeat split; cbn; lia.
        + intros Hrun; inversion Hrun; subst.
          exists (CloseFailed clickTypeError); eexists.
          cbn [results calls]; rewrite <- !app_assoc.
          repeat split; [cbn; lia |].
          now exists (elapse 300 w1), closeBtn.
      - intros Hrun; inversion Hrun; subst; exists PersonNotFound; eexists.
        cbn [results calls]; rewrite <- !app_assoc.
        repeat split; cbn; lia. }
  unfold waitForDialogClose. rewrite pollClose_pollUntil.
  destruct (pollUntil dialogClosed (js "Dialog close timeout") fuel
              defaultTimeout (now (click person (elapse 300 w1)))
              (click person (elapse 300 w1)))
    as [[r w2]| |] eqn:Hclose; cbn [bind]; try discriminate.
  destruct r as [|m].
  - intros Hrun; inversion Hrun; subst. exists Success. eexists.
    cbn [results calls]. rewrite <- !app_assoc.
    repeat split; cbn; lia.
  - intros Hrun; inversion Hrun; subst. exists (Error m). eexists.
    cbn [results calls]. rewrite <- !app_assoc.
    repeat split; [cbn; lia |].
    cbn [explained]. right.
    now apply pollUntil_rejected_message in Hclose.
Qed.

Lemma processLoop_ret fuel events :
  forall st st',
    processLoop fuel events st = Ret st' ->
    exists outcomes extra,
      length outcomes = length events
      /\ results st' = recordAll (combine events outcomes) (results st)
      /\ calls st' = calls st ++ extra
      /\ (countClicks extra <= 2 * length events)%nat
      /\ Forall (explained H) outcomes.
Proof.
  induction events as [|event rest IH]; intros st st' Hrun.
  - cbn in Hrun. inversion Hrun; subst. exists [], [].
    rewrite app_nil_r. cbn. repeat split; try lia. constructor.
  - cbn [processLoop] in Hrun.
    destruct (processEvent fuel event st) as [st1| |] eqn:Hturn;
      cbn [bind] in Hrun; try discriminate.
    apply processEvent_ret in Hturn as (o & extra1 & Hres1 & Hcalls1 & Hc1 & Hm1).
    apply IH in Hrun as (outcomes & extra & Hlen & Hres & Hcalls & Hc & Hm).
    exists (o :: outcomes), (extra1 ++ extra). cbn [length combine].
    repeat split.
    + lia.
    + rewrite Hres, Hres1. reflexivity.
    + now rewrite Hcalls, Hcalls1, app_assoc.
    + rewrite countClicks_app. lia.
    + now constructor.
Qed.



Hypothesis progress : timersProgress H.

Lemma wait_settles test message fuel w :
  (51 <= fuel)%nat ->
  exists r w',
    pollUntil test message fuel defaultTimeout (now w) w = Ret (r, w').
Proof.
  intros Hfuel. apply (pollUntil_settles progress).
  unfold defaultTimeout, pollInterval. lia.
Qed.

(** Every turn of the loop returns. *)
Lemma processEvent_returns fuel event st :
  (51 <= fuel)%nat -> exists st', processEvent fuel event st = Ret st'.
Proof.
  intros Hfuel. unfold processEvent.
  destruct (findMatchingDiv (document (world st)) event) as [btn|];
    [| now eexists].
  destruct (isPersonAlreadyAssigned (document (world st)) btn (name event));
    [now eexists |].
  unfold waitForDialog. rewrite pollOpen_pollUntil.
  destruct (wait_settles dialogVisible (js "Dialog timeout") fuel
              (click btn (world st)) Hfuel) as (r & w1 & ->).
  cbn [bind]. destruct r as [|message]; [| now eexists].
  destruct (findPersonInDialog (document (elapse 300 w1)) (name event))
    as [person|].
  2:{ destruct (findCloseButton (document (elapse 300 w1))) as [closeBtn|];
        [| now eexists].
      destruct (hasClickMethod (document (elapse 300 w1)) closeBtn);
        now eexists. }
  unfold waitForDialogClose. rewrite pollClose_pollUntil.
  destruct (wait_settles dialogClosed (js "Dialog close timeout") fuel
              (click person (elapse 300 w1)) Hfuel) as (r & w2 & ->).
  cbn [bind]. destruct r as [|message]; now eexists.
Qed.

Lemma processLoop_returns fuel events :
  (51 <= fuel)%nat -> forall st, exists st', processLoop fuel events st = Ret st'.
Proof.
  intros Hfuel. induction events as [|event rest IH]; intros st.
  - now exists st.
  - destruct (processEvent_returns fuel event st Hfuel) as (st1 & Hrun).
    destruct (IH st1) as (st2 & Hloop).
    exists st2. cbn [processLoop]. now rewrite Hrun.
Qed.

(** The loop returns, with the pushes of one outcome for each event, in
    the order of the events. *)
Lemma processLoop_outcomes fuel events :
  (51 <= fuel)%nat ->
  forall st, exists st' outcomes,
    processLoop fuel events st = Ret st'
    /\ length outcomes = length events
    /\ results st' = recordAll (combine events outcomes) (results st)
    /\ Forall (explained H) outcomes.
Proof.
  intros Hfuel st.
  destruct (processLoop_returns fuel events Hfuel st) as (st' & Hrun).
  destruct (processLoop_ret fuel events st st' Hrun)
    as (outcomes & _ & Hlen & Hres & _ & _ & Hall).
  now exists st', outcomes.
Qed.

End Processor.


(* ================================================================== *)
(** * Facts about the model page                                        *)
(* ================================================================== *)

Lemma modelPage_progress latency : timersProgress (modelPage latency).
Proof. intros ms w. cbn. lia. Qed.

Lemma page_dialogVisible pg :
  dialogVisible (pageDocument pg) = dialogShown pg.
Proof.
  unfold dialogVisible, pageDocument.
  destruct (dialogShown pg), (assigned pg); reflexivity.
Qed.

Lemma page_polls latency k : forall pg : Page,
  @polls (modelPage latency) k pg
  = mkPage (clock pg + 100 * Z.of_nat k) (opensAt pg) (assigned pg).
Proof.
  induction k as [|k IH]; intros pg.
  - cbn. destruct pg; cbn. f_equal. lia.
  - cbn [polls]. rewrite IH.
    cbn [elapse modelPage pageElapse clock opensAt assigned].
    f_equal. unfold pollInterval. lia.
Qed.




(** C9. When the locator finds no slot for an event, the turn returns
    with the description of the event appended to [slotNotFound] and
    the other four sequences as they were; the page is as before and
    the log of the turn shows the locate call only: no assignment
    check, no click, no wait and no delay. The loop goes on with the
    next event, and a report returned at the end lists the event under
    [slotNotFound]. *)
Theorem slot_not_found_no_dialog (H : Host) (fuel : nat) (event : Event)
    (rest : list Event) (st : State) :
  findMatchingDiv (document (world st)) event = None ->
  exists st',
    processEvent fuel event st = Ret st'
    /\ slotNotFound (results st')
       = slotNotFound (results st) ++ [describe event]
    /\ success (results st') = success (results st)
    /\ alreadyAssigned (results st') = alreadyAssigned (results st)
    /\ personNotFound (results st') = personNotFound (results st)
    /\ errors (results st') = errors (results st)
    /\ world st' = world st
    /\ calls st' = calls st ++ [Locate event]
    /\ processLoop fuel (event :: rest) st = processLoop fuel rest st'
    /\ (forall final,
          processLoop fuel (event :: rest) st = Ret final ->
          In (describe event) (slotNotFound (results final))).
Proof.
  intros Hnone.
  pose proof (processEvent_slot_not_found fuel event st Hnone) as Hrun.
  eexists. split; [exact Hrun |]. cbn [results world calls].
  assert (Hstep : processLoop fuel (event :: rest) st
                  = processLoop fuel rest
                      (mkState (world st)
                         (pushSlotNotFound (describe event) (results st))
                         (calls st ++ [Locate event]))).
  { cbn [processLoop]. now rewrite Hrun. }
  repeat split; try reflexivity; try exact Hstep.
  intros final Hfinal. rewrite Hstep in Hfinal.
  apply processLoop_ret in Hfinal as (outcomes & _ & _ & Hres & _).
  cbn [results] in Hres. rewrite Hres.
  destruct (recordAll_sequences (combine rest outcomes)
              (pushSlotNotFound (describe event) (results st)))
    as (_ & _ & -> & _).
  cbn [slotNotFound pushSlotNotFound].
  apply in_or_app. left. apply in_or_app. right. now left.
Qed.

Lemma slot_not_found_no_dialog_witness :
  let st := @mkState (modelPage (Some 50%Z)) startPage noResults [] in
  findMatchingDiv (pageDocument startPage) otherRoomEvent = None
  /\ exists st',
      processEvent 51 otherRoomEvent st = Ret st'
      /\ slotNotFound (results st') = [describe otherRoomEvent]
      /\ world st' = startPage
      /\ calls st' = [Locate otherRoomEvent]
      /\ processLoop 51 [otherRoomEvent; anaEvent] st
         = processLoop 51 [anaEvent] st'.
Proof.
  intros st. split; [reflexivity |].
  destruct (slot_not_found_no_dialog (modelPage (Some 50%Z)) 51 otherRoomEvent
              [anaEvent] st eq_refl)
    as (st' & Hrun & Hslot & _ & _ & _ & _ & Hworld & Hcalls & Hstep & _).
  exists st'. repeat split; assumption.
Defined.

Lemma errors_record x o s r :
  In x (errors r) -> In x (errors (record o s r)).
Proof.
  intros Hin. destruct o; cbn; try exact Hin; apply in_or_app; now left.
Qed.

Lemma errors_recordAll x l : forall r,
  In x (errors r) -> In x (errors (recordAll l r)).
Proof.
  unfold recordAll. induction l as [|eo l IH]; intros r Hin; cbn;
    [exact Hin |].
  apply IH. now apply errors_record.
Qed.

(** C4, as the code has it. When the dialog is not present and visible
    at any poll of the wait (the polls go on until the first one later
    than the timeout), the turn of the event returns with the event
    recorded in [errors] under the message of the timeout; the loop
    goes on with the next events from there, and the report returned at
    the end holds that entry. *)
Theorem dialog_open_timeout (H : Host) (fuel : nat) (event : Event)
    (rest : list Event) (st : State) (btn : Path) :
  timersProgress H -> (51 <= fuel)%nat ->
  findMatchingDiv (document (world st)) event = Some btn ->
  isPersonAlreadyAssigned (document (world st)) btn (name event) = false ->
  let w1 := click btn (world st) in
  (forall k, (now (polls k w1) - now w1 <= defaultTimeout)%Z ->
             dialogVisible (document (polls (S k) w1)) = false) ->
  exists n final,
    let st' := mkState (polls n w1)
                 (pushError (describe event) (js "Dialog timeout")
                            (results st))
                 (calls st ++ [Locate event; CheckAssigned btn;
                               Click btn; AwaitOpen]) in
    (1 <= n <= fuel)%nat
    /\ (now (polls n w1) - now w1 > defaultTimeout)%Z
    /\ processEvent fuel event st = Ret st'
    /\ processLoop fuel (event :: rest) st = processLoop fuel rest st'
    /\ processLoop fuel (event :: rest) st = Ret final
    /\ In (describe event, js "Dialog timeout") (errors (results final)).
Proof.
  intros Hprog Hfuel Hfound Hfree w1 Hnever.
  destruct (pollUntil_rejects Hprog dialogVisible (js "Dialog timeout")
              defaultTimeout (now w1) fuel w1) as (n & Hn & Hlate & Hrun).
  { unfold defaultTimeout, pollInterval. lia. }
  { exact Hnever. }
  set (st' := mkState (polls n w1)
                (pushError (describe event) (js "Dialog timeout") (results st))
                (calls st ++ [Locate event; CheckAssigned btn;
                              Click btn; AwaitOpen])).
  assert (Hturn : processEvent fuel event st = Ret st').
  { unfold processEvent. rewrite Hfound, Hfree. fold w1.
    unfold waitForDialog. rewrite pollOpen_pollUntil, Hrun. cbn [bind].
    unfold st'. now rewrite <- !app_assoc. }
  destruct (processLoop_outcomes Hprog fuel rest Hfuel st')
    as (final & outcomes & Hloop & _ & Hres & _).
  exists n, final. cbn zeta. fold st'.
  assert (Hstep : processLoop fuel (event :: rest) st
                  = processLoop fuel rest st').
  { cbn [processLoop]. now rewrite Hturn. }
  repeat split; try lia; try assumption.
  - now rewrite Hstep.
  - rewrite Hres. apply errors_recordAll. cbn. apply in_or_app. right.
    now left.
Qed.

Lemma dialog_open_timeout_witness :
  let H := modelPage None in
  let st := @mkState H startPage noResults [] in
  let w1 := @click H addControl startPage in
  timersProgress H /\ (51 <= 51)%nat
  /\ findMatchingDiv (pageDocument startPage) anaEvent = Some addControl
  /\ isPersonAlreadyAssigned (pageDocument startPage) addControl
       (name anaEvent) = false
  /\ (forall k, (@now H (polls k w1) - @now H w1 <= defaultTimeout)%Z ->
                dialogVisible (@document H (polls (S k) w1)) = false)
  /\ exists n final,
      (1 <= n <= 51)%nat
      /\ processLoop 51 [anaEvent; anaEvent] st = Ret final
      /\ In (describe anaEvent, js "Dialog timeout") (errors (results final)).
Proof.
  intros H st w1.
  assert (Hnever : forall k,
             (@now H (polls k w1) - @now H w1 <= defaultTimeout)%Z ->
             dialogVisible (@document H (polls (S k) w1)) = false).
  { intros k _. unfold H. rewrite page_polls. cbn [document modelPage].
    rewrite page_dialogVisible. reflexivity. }
  split; [apply modelPage_progress |]. split; [lia |].
  split; [reflexivity |]. split; [reflexivity |]. split; [exact Hnever |].
  destruct (dialog_open_timeout H 51 anaEvent [anaEvent] st addControl
              (modelPage_progress None) (le_n 51) eq_refl eq_refl Hnever)
    as (n & final & Hn & _ & _ & _ & Hrun & Hin).
  exists n, final. repeat split; try lia; assumption.
Defined.

(** A page that shows the dialog 5050 ms after the click: at no moment
    within the 5000 ms of the timeout is the dialog visible, yet the
    poll at 5100 ms sees it, the wait succeeds and the event is recorded
    as a success, not as an error. *)
Lemma dialog_open_timeout_counterexample :
  let H := modelPage (Some 5050%Z) in
  let w1 := @click H addControl startPage in
  findMatchingDiv (pageDocument startPage) anaEvent = Some addControl
  /\ isPersonAlreadyAssigned (pageDocument startPage) addControl
       (name anaEvent) = false
  /\ (forall ms, (0 <= ms <= defaultTimeout)%Z ->
                 dialogVisible (@document H (@elapse H ms w1)) = false)
  /\ exists st,
      @processEvents H 60 [anaEvent] startPage = Ret st
      /\ errors (results st) = []
      /\ success (results st) = [describe anaEvent].
Proof.
  intros H w1. split; [reflexivity |]. split; [reflexivity |]. split.
  - intros ms Hms. cbn [document elapse H modelPage].
    rewrite page_dialogVisible. unfold defaultTimeout in Hms. cbn.
    apply Z.leb_gt. lia.
  - eexists. split; [vm_compute; reflexivity |]. vm_compute. split; reflexivity.
Qed.

(* ================================================================== *)
(** * The slot locator                                                  *)
(* ================================================================== *)

Lemma firstAddControl_find p pattern divs :
  option_map (app p) (firstAddControl pattern divs)
  = match find (fun x => containsText pattern x && hasAddControl x) divs with
    | Some x => addControlOf p x
    | None => None
    end.
Proof.
  induction divs as [|[q div] rest IH]; [reflexivity |].
  cbn [firstAddControl find].
  unfold containsText at 1, hasAddControl at 1. cbn [fst snd].
  destruct (includes (textContent div) pattern); [| exact IH].
  cbn [andb].
  destruct (querySelector selAddControl div) as [[q' c]|] eqn:Hq;
    [| exact IH].
  unfold addControlOf. cbn [fst snd]. now rewrite Hq.
Qed.

Lemma find_usable_first pattern divs :
  match find (containsText pattern) divs with
  | Some x => hasAddControl x
  | None => true
  end = true ->
  find (fun x => containsText pattern x && hasAddControl x) divs
  = find (containsText pattern) divs.
Proof.
  induction divs as [|x rest IH]; [reflexivity |]. cbn [find].
  destruct (containsText pattern x); cbn [andb]; [| exact IH].
  now intros ->.
Qed.

(** C2, as the code has it. The locator returns the add control of the
    first [div] of the editor, in document order, that both contains the
    pattern and has an add control; a [div] that contains the pattern
    and has no add control is passed over and later ones are still
    considered.  So a returned control lies in a [div] containing the
    pattern, not-found means that no [div] containing the pattern has
    an add control, and the result agrees with the first-match reading
    whenever the first [div] containing the pattern has an add
    control. *)
Theorem locator_first_usable_div (doc : Node) (event : Event) :
  findMatchingDiv doc event = locateFirstUsable doc event
  /\ (forall c, findMatchingDiv doc event = Some c ->
      exists p editor q div q' n,
        getElementById doc "editor" = Some (p, editor)
        /\ In (q, div) (querySelectorAll selDiv editor)
        /\ includes (textContent div) (slotPattern event) = true
        /\ querySelector selAddControl div = Some (q', n)
        /\ c = p ++ q ++ q')
  /\ (findMatchingDiv doc event = None ->
      forall p editor q div,
        getElementById doc "editor" = Some (p, editor) ->
        In (q, div) (querySelectorAll selDiv editor) ->
        includes (textContent div) (slotPattern event) = true ->
        querySelector selAddControl div = None)
  /\ (firstMatchHasControl doc event = true ->
      findMatchingDiv doc event = locateFirstMatch doc event).
Proof.
  unfold findMatchingDiv, locateFirstUsable, locateFirstMatch,
    firstMatchHasControl.
  destruct (getElementById doc "editor") as [[p editor]|].
  2:{ repeat split; try discriminate. }
  rewrite firstAddControl_find.
  set (usable := fun x => containsText (slotPattern event) x && hasAddControl x).
  split; [reflexivity |]. split; [| split].
  - intros c Hc.
    destruct (find usable (querySelectorAll selDiv editor)) as [[q div]|] eqn:Hf;
      [| discriminate].
    apply find_some in Hf as [Hin Hu]. unfold usable in Hu.
    apply andb_true_iff in Hu as [Htext _].
    unfold addControlOf in Hc. cbn [fst snd] in Hc.
    destruct (querySelector selAddControl div) as [[q' n]|] eqn:Hq;
      [| discriminate].
    inversion Hc; subst. now exists p, editor, q, div, q', n.
  - intros Hnone p' editor' q div Hed Hin Htext. inversion Hed; subst.
    destruct (find usable (querySelectorAll selDiv editor')) as [x|] eqn:Hf.
    + apply find_some in Hf as [_ Hu]. unfold usable in Hu.
      apply andb_true_iff in Hu as [_ Hadd].
      unfold hasAddControl in Hadd. unfold addControlOf in Hnone.
      destruct (querySelector selAddControl (snd x)); discriminate.
    + pose proof (find_none _ _ Hf _ Hin) as Hu. unfold usable in Hu.
      unfold containsText, hasAddControl in Hu. cbn [snd] in Hu.
      rewrite Htext in Hu. cbn [andb] in Hu.
      now destruct (querySelector selAddControl div).
  - intros Hfirst. unfold usable.
    now rewrite (find_usable_first _ _ Hfirst).
Qed.

Lemma locator_first_usable_div_witness :
  firstMatchHasControl (pageDocument startPage) anaEvent = true
  /\ findMatchingDiv (pageDocument startPage) anaEvent
     = locateFirstMatch (pageDocument startPage) anaEvent.
Proof.
  split; [reflexivity |].
  apply (locator_first_usable_div (pageDocument startPage) anaEvent).
  reflexivity.
Defined.

(** The first element containing the text has no add control and a
    later one has: the first-match reading gives not-found, the code
    returns the later element's control. *)
Lemma locator_first_usable_div_counterexample :
  locateFirstMatch twoRowDocument anaEvent = None
  /\ findMatchingDiv twoRowDocument anaEvent = Some [0; 1; 1]%nat.
Proof. vm_compute. split; reflexivity. Qed.

(* ================================================================== *)
(** * The name test                                                     *)
(* ================================================================== *)

Lemma starts_with_spec p : forall s,
  starts_with p s = true <-> exists b, s = p ++ b.
Proof.
  induction p as [|a p IH]; intros s; cbn.
  - split; [intros _; now exists s | reflexivity].
  - destruct s as [|c s].
    + split; [discriminate | intros [b Hb]; discriminate].
    + rewrite andb_true_iff, N.eqb_eq, IH. split.
      * intros [-> [b ->]]. now exists b.
      * intros [b Hb]. inversion Hb; subst. split; [reflexivity | now exists b].
Qed.

(** [includes] is containment as a contiguous substring. *)
Lemma includes_spec s p :
  includes s p = true <-> exists a b, s = a ++ p ++ b.
Proof.
  induction s as [|c s IH]; cbn [includes]; rewrite orb_true_iff.
  - rewrite starts_with_spec. split.
    + intros [[b Hb]|Hf]; [| discriminate]. now exists [], b.
    + intros (a & b & Hab). left. destruct a; [| discriminate].
      now exists b.
  - rewrite starts_with_spec, IH. split.
    + intros [[b Hb]|(a & b & ->)]; [now exists [], b |].
      now exists (c :: a), b.
    + intros (a & b & Hab). destruct a as [|x a]; [left; now exists b |].
      right. inversion Hab; subst. now exists a, b.
Qed.

Lemma split_two sep a b :
  forallb (fun c => negb (c =? sep)%N) a = true ->
  forallb (fun c => negb (c =? sep)%N) b = true ->
  split sep (a ++ [sep] ++ b) = [a; b].
Proof.
  intros Hf Hl. cbn [app]. now rewrite (split_app _ _ _ Hf), (split_none _ _ Hl).
Qed.

(** On a slot row with an assigned list, the checker is the name test
    tried on each entry of the list. *)
Lemma assigned_entries_test name entries : forall i,
  existsb (fun li => nameMatches (textContent (snd li)) name)
          (filter (fun x => selLi (snd x))
                  (belowFrom i (map listEntry entries)))
  = existsb (fun t => nameMatches (js t) name) entries.
Proof.
  induction entries as [|t rest IH]; intros i; [reflexivity |].
  cbn [map belowFrom].
  change (elements (listEntry t)) with [(@nil nat, listEntry t)].
  cbn [map app under fst snd filter].
  change (selLi (listEntry t)) with true. cbn [existsb snd].
  rewrite IH. f_equal.
  change (textContent (snd (under i ([], listEntry t)))) with (js t ++ []).
  now rewrite app_nil_r.
Qed.

Lemma checker_on_assignedDocument entries name :
  isPersonAlreadyAssigned (assignedDocument entries) addControl name
  = existsb (fun t => nameMatches (js t) name) entries.
Proof.
  unfold isPersonAlreadyAssigned.
  change (closest (assignedDocument entries) selDiv addControl)
    with (Some ([0; 0]%nat,
                el "div" None [] None "" [
                  Text (js "2024-03-10 09:00 10:00 A1");
                  el "span" None ["ui-icon-plusthick"%string] None "" [] ])).
  set (ul := el "ul" (Some "ul_1"%string) [] None "" (map listEntry entries)).
  change (nextElementSiblings (assignedDocument entries) [0; 0]%nat)
    with [el "div" None [] None "" [ul]].
  cbn [checkSiblings].
  change (querySelector selAssignedList (el "div" None [] None "" [ul]))
    with (Some ([0]%nat, ul)).
  apply (assigned_entries_test name entries 0).
Qed.

(** C8. For a name of two parts the name test holds of an entry text
    exactly when the text contains the first part and contains the last
    part, wherever they stand; the assignment checker applies this test
    to the entries of the assigned list; so "Ivan Horvat" matches
    "Horvat, Ivan" and "Ivan Horvat" and does not match "Ivan Novak". *)
Theorem name_test_two_parts :
  (forall firstName lastName text : jsstring,
      forallb (fun c => negb (c =? SPACE)%N) firstName = true ->
      forallb (fun c => negb (c =? SPACE)%N) lastName = true ->
      (nameMatches text (firstName ++ [SPACE] ++ lastName) = true
       <-> (exists a b, text = a ++ firstName ++ b)
           /\ (exists a b, text = a ++ lastName ++ b)))
  /\ (forall entries name,
        isPersonAlreadyAssigned (assignedDocument entries) addControl name
        = existsb (fun t => nameMatches (js t) name) entries)
  /\ nameMatches (js "Horvat, Ivan") (js "Ivan Horvat") = true
  /\ nameMatches (js "Ivan Horvat") (js "Ivan Horvat") = true
  /\ nameMatches (js "Ivan Novak") (js "Ivan Horvat") = false.
Proof.
  split; [| split].
  - intros firstName lastName text Hf Hl. unfold nameMatches.
    rewrite (split_two _ _ _ Hf Hl). cbn [length Nat.leb last hd].
    rewrite andb_true_iff, !includes_spec. tauto.
  - exact checker_on_assignedDocument.
  - vm_compute. repeat split.
Qed.

Lemma name_test_two_parts_witness :
  (exists a b, js "Horvat, Ivan" = a ++ js "Ivan" ++ b)
  /\ (exists a b, js "Horvat, Ivan" = a ++ js "Horvat" ++ b)
  /\ nameMatches (js "Horvat, Ivan") (js "Ivan" ++ [SPACE] ++ js "Horvat")
     = true.
Proof.
  assert (H1 : exists a b, js "Horvat, Ivan" = a ++ js "Ivan" ++ b)
    by (exists (js "Horvat, "), []; reflexivity).
  assert (H2 : exists a b, js "Horvat, Ivan" = a ++ js "Horvat" ++ b)
    by (exists [], (js ", Ivan"); reflexivity).
  split; [exact H1 |]. split; [exact H2 |].
  apply (proj1 name_test_two_parts (js "Ivan") (js "Horvat")
           (js "Horvat, Ivan")); [reflexivity | reflexivity |].
  split; [exact H1 | exact H2].
Defined.

(* ================================================================== *)
(** * Parser: white space, blank lines and concatenation                *)
(* ================================================================== *)

Lemma trim_cons_space c s : is_space c = true -> trim (c :: s) = trim s.
Proof. intros Hc. unfold trim. cbn [drop_while]. now rewrite Hc. Qed.

Lemma drop_while_nil_all p s : drop_while p s = [] -> forallb p s = true.
Proof.
  induction s as [|c s IH]; cbn; [reflexivity |].
  destruct (p c); [exact IH | discriminate].
Qed.

Lemma drop_while_app_some p a b :
  drop_while p a <> [] -> drop_while p (a ++ b) = drop_while p a ++ b.
Proof.
  induction a as [|c a IH]; cbn; [congruence |].
  destruct (p c); [exact IH | reflexivity].
Qed.

Lemma trim_snoc_space s c : is_space c = true -> trim (s ++ [c]) = trim s.
Proof.
  intros Hc. unfold trim.
  destruct (drop_while is_space s) as [|x t] eqn:Hd.
  - apply drop_while_nil_all in Hd.
    rewrite (drop_while_all _ _ _ Hd). cbn. now rewrite Hc.
  - rewrite drop_while_app_some by (rewrite Hd; discriminate).
    rewrite Hd, rev_app_distr. cbn [rev app drop_while]. now rewrite Hc.
Qed.

Lemma trim_all_space s : forallb is_space s = true -> trim s = [].
Proof.
  intros Hall. unfold trim.
  rewrite <- (app_nil_r s), (drop_while_all _ _ _ Hall). reflexivity.
Qed.

Lemma scanTokens_two e n rest :
  scanTokens (e :: n :: rest)
  = match matchHeader (trim e) with
    | Some m => if validName n then eventOf m (trim n) :: scanTokens rest
                else scanTokens (n :: rest)
    | None => scanTokens (n :: rest)
    end.
Proof. reflexivity. Qed.

(** The token scan reads its tokens through [trim] only. *)
Lemma scanTokens_sameCell l1 : forall l2,
  Forall2 sameCell l1 l2 -> scanTokens l1 = scanTokens l2.
Proof.
  unfold sameCell.
  induction l1 as [| e | e n rest IH1 IH2] using token_ind; intros l2 Hl.
  - inversion Hl; subst. reflexivity.
  - inversion Hl as [|? e' ? t He Ht]; subst. inversion Ht; subst.
    cbn. rewrite <- He. reflexivity.
  - inversion Hl as [|? e' ? t He Ht]; subst.
    inversion Ht as [|? n' ? t' Hn Ht']; subst.
    rewrite !scanTokens_two. unfold validName. rewrite <- He, <- Hn.
    rewrite (IH1 _ Ht'), (IH2 _ Ht). reflexivity.
Qed.

Lemma filter_sameCell l1 : forall l2,
  Forall2 sameCell l1 l2 ->
  Forall2 sameCell (filter (fun e => truthy (trim e)) l1)
                   (filter (fun e => truthy (trim e)) l2).
Proof.
  induction l1 as [|a l1 IH]; intros l2 Hl; inversion Hl as [|? b ? t Hab Ht];
    subst; cbn [filter]; [constructor |].
  unfold sameCell in Hab. rewrite <- Hab.
  destruct (truthy (trim a)); [constructor; [exact Hab |] |]; now apply IH.
Qed.

Lemma Forall2_sameCell_refl l : Forall2 sameCell l l.
Proof. induction l; constructor; [reflexivity | assumption]. Qed.

Lemma split_cons_other sep c s :
  (c =? sep)%N = false ->
  exists p ps, split sep s = p :: ps /\ split sep (c :: s) = (c :: p) :: ps.
Proof.
  intros Hc. cbn [split]. rewrite Hc.
  destruct (split sep s) as [|p ps] eqn:Hs.
  - destruct s as [|x s]; cbn in Hs; [discriminate |].
    destruct (x =? sep)%N; [discriminate |].
    destruct (split sep s); discriminate.
  - now exists p, ps.
Qed.

(** [split] distributes over a separator. *)
Lemma split_app_sep sep a b :
  split sep (a ++ sep :: b) = split sep a ++ split sep b.
Proof.
  induction a as [|c a IH]; cbn [app split].
  - now rewrite N.eqb_refl.
  - destruct (c =? sep)%N eqn:Hc.
    + now rewrite IH.
    + rewrite IH. destruct (split_cons_other sep c a Hc) as (p & ps & Hs & _).
      now rewrite Hs.
Qed.

Lemma split_snoc_sep sep s : split sep (s ++ [sep]) = split sep s ++ [[]].
Proof. rewrite split_app_sep. reflexivity. Qed.

Lemma split_snoc_other sep s c :
  (c =? sep)%N = false ->
  exists ps p, split sep s = ps ++ [p] /\ split sep (s ++ [c]) = ps ++ [p ++ [c]].
Proof.
  intros Hc. induction s as [|x s IH].
  - exists [], []. cbn. now rewrite Hc.
  - destruct IH as (ps & p & Hs & Hsc). cbn [app split].
    destruct (x =? sep)%N.
    + exists ([] :: ps), p. now rewrite Hs, Hsc.
    + rewrite Hs, Hsc. destruct ps as [|q ps]; cbn.
      * now exists [], (x :: p).
      * now exists ((x :: q) :: ps), p.
Qed.

Lemma lineEvents_sameCells line1 line2 :
  trim line1 = trim line2 ->
  Forall2 sameCell (split TAB line1) (split TAB line2) ->
  lineEvents line1 = lineEvents line2.
Proof.
  intros Ht Hcells. unfold lineEvents, entriesOf. rewrite Ht.
  destruct (truthy (trim line2)); [| reflexivity].
  apply scanTokens_sameCell. now apply filter_sameCell.
Qed.

Lemma entriesOf_drop_empty line :
  filter (fun e => truthy (trim e)) ([] :: split TAB line) = entriesOf line.
Proof. reflexivity. Qed.

Lemma lineEvents_cons_space c line :
  is_space c = true -> lineEvents (c :: line) = lineEvents line.
Proof.
  intros Hc. destruct (c =? TAB)%N eqn:Htab.
  - unfold lineEvents, entriesOf. rewrite (trim_cons_space _ _ Hc).
    cbn [split]. rewrite Htab. reflexivity.
  - apply lineEvents_sameCells; [now apply trim_cons_space |].
    destruct (split_cons_other TAB c line Htab) as (p & ps & Hs & ->).
    rewrite Hs. constructor; [| apply Forall2_sameCell_refl].
    now apply trim_cons_space.
Qed.

Lemma Forall2_sameCell_last ps p q :
  sameCell p q -> Forall2 sameCell (ps ++ [p]) (ps ++ [q]).
Proof.
  intros Hpq. induction ps as [|x ps IH]; cbn.
  - now repeat constructor.
  - constructor; [reflexivity | exact IH].
Qed.

Lemma lineEvents_snoc_space line c :
  is_space c = true -> lineEvents (line ++ [c]) = lineEvents line.
Proof.
  intros Hc. destruct (c =? TAB)%N eqn:Htab.
  - apply N.eqb_eq in Htab as ->.
    unfold lineEvents, entriesOf. rewrite (trim_snoc_space _ _ Hc).
    rewrite split_snoc_sep, filter_app. cbn [filter trim].
    change (truthy (trim [])) with false. cbn. now rewrite app_nil_r.
  - apply lineEvents_sameCells; [now apply trim_snoc_space |].
    destruct (split_snoc_other TAB line c Htab) as (ps & p & -> & ->).
    apply Forall2_sameCell_last. now apply trim_snoc_space.
Qed.

Lemma lineEvents_nil : lineEvents [] = [].
Proof. reflexivity. Qed.

Lemma allEvents_cons_space c s :
  is_space c = true -> allEvents (c :: s) = allEvents s.
Proof.
  intros Hc. unfold allEvents. destruct (c =? LF)%N eqn:Hlf.
  - cbn [split]. rewrite Hlf. reflexivity.
  - destruct (split_cons_other LF c s Hlf) as (p & ps & -> & ->).
    cbn [flat_map]. now rewrite (lineEvents_cons_space _ _ Hc).
Qed.

Lemma allEvents_snoc_space s c :
  is_space c = true -> allEvents (s ++ [c]) = allEvents s.
Proof.
  intros Hc. unfold allEvents. destruct (c =? LF)%N eqn:Hlf.
  - apply N.eqb_eq in Hlf as ->. rewrite split_snoc_sep, flat_map_app.
    cbn. now rewrite app_nil_r.
  - destruct (split_snoc_other LF s c Hlf) as (ps & p & -> & ->).
    rewrite !flat_map_app. cbn [flat_map].
    now rewrite (lineEvents_snoc_space _ _ Hc).
Qed.

(** Trimming the input does not change the events of its lines. *)
Lemma allEvents_trim s : allEvents (trim s) = allEvents s.
Proof.
  unfold trim.
  assert (Hstart : forall t, allEvents (drop_while is_space t) = allEvents t).
  { induction t as [|c t IH]; [reflexivity |]. cbn [drop_while].
    destruct (is_space c) eqn:Hc; [| reflexivity].
    now rewrite IH, (allEvents_cons_space _ _ Hc). }
  assert (Hend : forall t, allEvents (rev (drop_while is_space t))
                           = allEvents (rev t)).
  { induction t as [|c t IH]; [reflexivity |]. cbn [drop_while rev].
    destruct (is_space c) eqn:Hc; [| reflexivity].
    now rewrite IH, (allEvents_snoc_space _ _ Hc). }
  now rewrite Hend, rev_involutive, Hstart.
Qed.

Lemma parseSchedule_allEvents input :
  parseSchedule input = Ret (allEvents input).
Proof. rewrite parseSchedule_eq. fold (allEvents (trim input)).
  now rewrite allEvents_trim. Qed.

(** X1. An input of white space only (the empty input included) parses
    to no event. *)
Theorem blank_input_no_events (input : jsstring) :
  forallb is_space input = true -> parseSchedule input = Ret [].
Proof.
  intros Hall. rewrite parseSchedule_eq, (trim_all_space _ Hall). reflexivity.
Qed.

Lemma blank_input_no_events_witness :
  forallb is_space (js " 	
  ") = true
  /\ parseSchedule (js " 	
  ") = Ret [].
Proof.
  split; [reflexivity |]. apply blank_input_no_events. reflexivity.
Defined.

(** X2. Parsing two texts joined by a newline gives the events of the
    first followed by the events of the second, whatever white space or
    blank lines stand at the joint or at the ends. *)
Theorem parse_concatenation (a b : jsstring) :
  exists ea eb,
    parseSchedule a = Ret ea /\ parseSchedule b = Ret eb
    /\ parseSchedule (a ++ [LF] ++ b) = Ret (ea ++ eb).
Proof.
  exists (allEvents a), (allEvents b).
  rewrite !parseSchedule_allEvents. repeat split.
  unfold allEvents. cbn [app]. now rewrite split_app_sep, flat_map_app.
Qed.

(** X3. Cells that differ only in the white space around them give the
    same events. *)
Theorem cell_padding_ignored (l1 l2 : list jsstring) (events : list Event) :
  Forall2 sameCell l1 l2 -> tokenLoop l1 events = tokenLoop l2 events.
Proof.
  intros Hl. rewrite !tokenLoop_eq. now rewrite (scanTokens_sameCell _ _ Hl).
Qed.

Lemma cell_padding_ignored_witness :
  Forall2 sameCell [js " 2024-03-10|09:00|10:00|A1  "; js "Ana Anic "]
                   [js "2024-03-10|09:00|10:00|A1"; js "  Ana Anic"]
  /\ tokenLoop [js " 2024-03-10|09:00|10:00|A1  "; js "Ana Anic "] []
     = tokenLoop [js "2024-03-10|09:00|10:00|A1"; js "  Ana Anic"] [].
Proof.
  assert (Hcells :
            Forall2 sameCell
              [js " 2024-03-10|09:00|10:00|A1  "; js "Ana Anic "]
              [js "2024-03-10|09:00|10:00|A1"; js "  Ana Anic"])
    by (repeat constructor).
  split; [exact Hcells |]. now apply cell_padding_ignored.
Defined.

(* ================================================================== *)
(** * Parser: how many events, and where they come from                 *)
(* ================================================================== *)

Lemma scanTokens_length entries :
  (2 * length (scanTokens entries) <= length entries)%nat.
Proof.
  induction entries as [| e | e n rest IH1 IH2] using token_ind.
  - cbn. lia.
  - cbn. destruct (matchHeader (trim e)); cbn; lia.
  - rewrite scanTokens_two. cbn [length] in *.
    destruct (matchHeader (trim e)); [| lia].
    destruct (validName n); cbn [length]; lia.
Qed.

Lemma split_length sep s :
  length (split sep s) = S (count_occ N.eq_dec s sep).
Proof.
  induction s as [|c s IH]; [reflexivity |]. cbn [split count_occ].
  destruct (N.eqb_spec c sep) as [->|Hc].
  - destruct (N.eq_dec sep sep); [| congruence]. cbn. now rewrite IH.
  - destruct (N.eq_dec c sep); [congruence |].
    destruct (split sep s) as [|p ps]; [discriminate |]. exact IH.
Qed.

Lemma count_split sep c s :
  sep <> c ->
  list_sum (map (fun p => count_occ N.eq_dec p c) (split sep s))
  = count_occ N.eq_dec s c.
Proof.
  intros Hne. induction s as [|x s IH]; [reflexivity |].
  cbn [split count_occ]. destruct (N.eqb_spec x sep) as [->|Hx].
  - destruct (N.eq_dec sep c); [congruence |]. cbn. exact IH.
  - destruct (split sep s) as [|p ps] eqn:Hs.
    + pose proof (split_length sep s) as Hl. rewrite Hs in Hl. discriminate.
    + cbn [map list_sum fold_right count_occ] in *.
      destruct (N.eq_dec x c); lia.
Qed.

Lemma lineEvents_length line : (length (lineEvents line) <= tabs line)%nat.
Proof.
  unfold lineEvents. destruct (truthy (trim line)); [| cbn; lia].
  pose proof (scanTokens_length (entriesOf line)) as Hscan.
  assert (Hent : (length (entriesOf line) <= S (tabs line))%nat).
  { unfold entriesOf, tabs. rewrite <- split_length. apply filter_length_le. }
  lia.
Qed.

Lemma allEvents_length s : (length (allEvents s) <= tabs s)%nat.
Proof.
  unfold allEvents, tabs.
  rewrite <- (count_split LF TAB s) by discriminate.
  induction (split LF s) as [|line rest IH]; cbn [flat_map map list_sum fold_right];
    [cbn; lia |].
  rewrite length_app. pose proof (lineEvents_length line) as Hl.
  unfold tabs in Hl. unfold list_sum in IH. lia.
Qed.

(** X4. Every event needs a tab between its header and its name: the
    parser returns at most as many events as the input has tabs. *)
Theorem events_at_most_tabs (input : jsstring) :
  exists events,
    parseSchedule input = Ret events /\ (length events <= tabs input)%nat.
Proof.
  exists (allEvents input).
  split; [apply parseSchedule_allEvents | apply allEvents_length].
Qed.

Lemma scanTokens_origin entries :
  forall ev, In ev (scanTokens entries) ->
  exists pre h n post g,
    entries = pre ++ h :: n :: post
    /\ matchHeader (trim h) = Some g /\ validName n = true
    /\ ev = eventOf g (trim n).
Proof.
  induction entries as [| e | e n rest IH1 IH2] using token_ind; intros ev Hin.
  - destruct Hin.
  - cbn in Hin. destruct (matchHeader (trim e)); destruct Hin.
  - rewrite scanTokens_two in Hin.
    assert (Hlater : In ev (scanTokens (n :: rest)) ->
              exists pre h n0 post g,
                e :: n :: rest = pre ++ h :: n0 :: post
                /\ matchHeader (trim h) = Some g /\ validName n0 = true
                /\ ev = eventOf g (trim n0)).
    { intros Hin'. destruct (IH2 ev Hin') as (pre & h & n0 & post & g & -> & Hg).
      now exists (e :: pre), h, n0, post, g. }
    destruct (matchHeader (trim e)) as [g|] eqn:Hm; [| now apply Hlater].
    destruct (validName n) eqn:Hn; [| now apply Hlater].
    destruct Hin as [<-|Hin].
    + now exists [], e, n, rest, g.
    + destruct (IH1 ev Hin) as (pre & h & n0 & post & g' & -> & Hg).
      now exists (e :: n :: pre), h, n0, post, g'.
Qed.

Lemma allEvents_origin input :
  forall ev, In ev (allEvents input) ->
  exists line pre h n post g,
    In line (split LF input)
    /\ entriesOf line = pre ++ h :: n :: post
    /\ matchHeader (trim h) = Some g /\ validName n = true
    /\ ev = eventOf g (trim n).
Proof.
  intros ev Hin. unfold allEvents in Hin.
  apply in_flat_map in Hin as (line & Hline & Hev).
  unfold lineEvents in Hev. destruct (truthy (trim line)); [| destruct Hev].
  destruct (scanTokens_origin _ _ Hev) as (pre & h & n & post & g & He & Hg).
  now exists line, pre, h, n, post, g.
Qed.

(** X5. The parser invents nothing: every event it returns is built
    from a cell of some line that matches the header pattern and from
    the usable name in the cell right after it. *)
Theorem events_come_from_adjacent_cells (input : jsstring) :
  exists events,
    parseSchedule input = Ret events
    /\ forall ev, In ev events ->
       exists line pre h n post g,
         In line (split LF input)
         /\ entriesOf line = pre ++ h :: n :: post
         /\ matchHeader (trim h) = Some g /\ validName n = true
         /\ ev = eventOf g (trim n).
Proof.
  exists (allEvents input). split; [apply parseSchedule_allEvents |].
  apply allEvents_origin.
Qed.

Lemma events_come_from_adjacent_cells_witness :
  exists pre h n post g,
    parseSchedule (js "x	2024-03-10|09:00|10:00|A1	Ana Anic") = Ret [anaEvent]
    /\ entriesOf (js "x	2024-03-10|09:00|10:00|A1	Ana Anic")
       = pre ++ h :: n :: post
    /\ matchHeader (trim h) = Some g /\ validName n = true
    /\ anaEvent = eventOf g (trim n).
Proof.
  destruct (events_come_from_adjacent_cells
              (js "x	2024-03-10|09:00|10:00|A1	Ana Anic"))
    as (events & Hrun & Hfrom).
  assert (Hev : events = [anaEvent]).
  { vm_compute in Hrun. now inversion Hrun. }
  destruct (Hfrom anaEvent) as (line & pre & h & n & post & g & Hline & Hent & Hrest).
  { rewrite Hev. now left. }
  destruct Hline as [<-|[]].
  exists pre, h, n, post, g. split; [reflexivity |]. now split.
Defined.

(* ================================================================== *)
(** * Parser and report: descriptions identify parsed events            *)
(* ================================================================== *)

Lemma eventOf_headerFields e n g :
  matchHeader e = Some g -> headerFields (eventOf g n) = true.
Proof.
  destruct g as [[[g1 g2] g3] g4]. intros Hm.
  apply matchHeader_sound in Hm as (Hd & Hs & He & Hr & _).
  destruct (room_normalized _ Hr) as (Hrm & _ & Hall).
  unfold headerFields, eventOf. cbn [date startTime endTime room].
  rewrite Hd, Hs, He, Hrm. cbn. now rewrite Hall.
Qed.

Lemma allEvents_headerFields input :
  Forall (fun ev => headerFields ev = true) (allEvents input).
Proof.
  apply Forall_forall. intros ev Hin.
  destruct (allEvents_origin input ev Hin)
    as (_ & _ & h & n & _ & g & _ & _ & Hm & _ & ->).
  now apply (eventOf_headerFields (trim h)).
Qed.

(** X6. Every parsed event has a date of the form YYYY-MM-DD, times of
    the form HH:MM and a room made of the letter A and digits. *)
Theorem parsed_events_header_fields (input : jsstring) :
  exists events,
    parseSchedule input = Ret events
    /\ Forall (fun ev => headerFields ev = true) events.
Proof.
  exists (allEvents input).
  split; [apply parseSchedule_allEvents | apply allEvents_headerFields].
Qed.

Lemma app_inv_length {A} (a a' b b' : list A) :
  length a = length a' -> a ++ b = a' ++ b' -> a = a' /\ b = b'.
Proof.
  revert a'. induction a as [|x a IH]; intros [|y a'] Hlen Heq; cbn in *;
    try discriminate; [now split |].
  inversion Heq; subst. destruct (IH a') as [-> ->]; [lia | assumption |].
  now split.
Qed.

Lemma app_inv_stop (p : N -> bool) a a' c b b' :
  forallb p a = true -> forallb p a' = true -> p c = false ->
  a ++ c :: b = a' ++ c :: b' -> a = a' /\ b = b'.
Proof.
  intros Ha Ha' Hc. revert a' Ha'.
  induction a as [|x a IH]; intros [|y a'] Ha' Heq; cbn in *.
  - inversion Heq. now split.
  - inversion Heq; subst. rewrite Hc in Ha'. discriminate.
  - inversion Heq; subst. rewrite Hc in Ha. discriminate.
  - apply andb_true_iff in Ha as [_ Ha]. apply andb_true_iff in Ha' as [_ Ha'].
    inversion Heq; subst. destruct (IH Ha a' Ha') as [-> ->]; [assumption |].
    now split.
Qed.

Lemma dateToken_length d : isDateToken d = true -> length d = 10%nat.
Proof.
  unfold isDateToken. intros Hd.
  do 10 (destruct d as [|? d]; [discriminate |]).
  destruct d; [reflexivity | discriminate].
Qed.

Lemma timeToken_length t : isTimeToken t = true -> length t = 5%nat.
Proof.
  unfold isTimeToken. intros Ht.
  do 5 (destruct t as [|? t]; [discriminate |]).
  destruct t; [reflexivity | discriminate].
Qed.

Lemma room_no_space r :
  roomIsAThenDigits r = true ->
  forallb (fun c => negb (c =? SPACE)%N) r = true.
Proof.
  unfold roomIsAThenDigits. destruct r as [|c ds]; [discriminate |].
  intros Hr. apply andb_true_iff in Hr as [Hc Hds].
  apply N.eqb_eq in Hc as ->. cbn [forallb]. apply andb_true_iff. split;
    [reflexivity |].
  revert Hds. apply forallb_weaken. intros c Hc.
  apply (plain_not_sep c SPACE); [unfold SPACE; lia | now apply digit_plain].
Qed.

Lemma describe_inj (e1 e2 : Event) :
  headerFields e1 = true -> headerFields e2 = true ->
  describe e1 = describe e2 -> e1 = e2.
Proof.
  unfold headerFields. intros H1 H2 Heq.
  apply andb_true_iff in H1 as [H1 Hr1]. apply andb_true_iff in H1 as [H1 He1].
  apply andb_true_iff in H1 as [Hd1 Hs1].
  apply andb_true_iff in H2 as [H2 Hr2]. apply andb_true_iff in H2 as [H2 He2].
  apply andb_true_iff in H2 as [Hd2 Hs2].
  destruct e1 as [d1 s1 t1 r1 n1], e2 as [d2 s2 t2 r2 n2].
  unfold describe in Heq. cbn [date startTime endTime room name] in *.
  apply app_inv_length in Heq as [-> Heq];
    [| now rewrite (dateToken_length _ Hd1), (dateToken_length _ Hd2)].
  cbn [app] in Heq. inversion Heq as [Heq1]. clear Heq.
  apply app_inv_length in Heq1 as [-> Heq];
    [| now rewrite (timeToken_length _ Hs1), (timeToken_length _ Hs2)].
  cbn [app] in Heq. inversion Heq as [Heq1]. clear Heq.
  apply app_inv_length in Heq1 as [-> Heq];
    [| now rewrite (timeToken_length _ He1), (timeToken_length _ He2)].
  cbn [app] in Heq. inversion Heq as [Heq1]. clear Heq.
  change (js " - " ++ n1) with (SPACE :: DASH :: SPACE :: n1) in Heq1.
  change (js " - " ++ n2) with (SPACE :: DASH :: SPACE :: n2) in Heq1.
  apply (app_inv_stop (fun c => negb (c =? SPACE)%N)) in Heq1 as [-> Heq];
    [| now apply room_no_space | now apply room_no_space | reflexivity].
  now inversion Heq.
Qed.

(** X7. The description written into the report identifies a parsed
    event: two events with well-shaped header fields and the same
    description are the same event. *)
Theorem describe_injective (e1 e2 : Event) :
  headerFields e1 = true -> headerFields e2 = true ->
  describe e1 = describe e2 -> e1 = e2.
Proof. apply describe_inj. Qed.

Lemma describe_injective_witness :
  headerFields anaEvent = true /\ headerFields anaEvent = true
  /\ describe anaEvent = describe anaEvent /\ anaEvent = anaEvent.
Proof.
  repeat (split; [reflexivity |]).
  apply describe_injective; reflexivity.
Defined.

(* ================================================================== *)
(** * The name test: one part, many parts, and the whole name           *)
(* ================================================================== *)


Lemma includes_trans s m p :
  includes s m = true -> includes m p = true -> includes s p = true.
Proof.
  rewrite !includes_spec. intros (a & b & ->) (a' & b' & ->).
  exists (a ++ a'), (b' ++ b). now rewrite <- !app_assoc.
Qed.

Lemma split_hd_prefix sep s : forall q qs,
  split sep s = q :: qs -> starts_with q s = true.
Proof.
  induction s as [|x s IH]; intros q qs Hs.
  - cbn in Hs. inversion Hs. reflexivity.
  - cbn [split] in Hs. destruct (x =? sep)%N.
    + inversion Hs. reflexivity.
    + destruct (split sep s) as [|q' qs'] eqn:Hs'.
      * pose proof (split_length sep s) as Hl. rewrite Hs' in Hl. discriminate.
      * inversion Hs; subst. cbn. rewrite N.eqb_refl. now apply (IH q' qs).
Qed.

(** Every piece of a split string is a substring of it. *)
Lemma split_piece_included sep s :
  forall p, In p (split sep s) -> includes s p = true.
Proof.
  induction s as [|c s IH]; intros p Hin.
  - cbn in Hin. destruct Hin as [<-|[]]. reflexivity.
  - assert (Hlater : In p (split sep s) -> includes (c :: s) p = true).
    { intros Hp. apply IH, includes_spec in Hp as (a & b & ->).
      apply includes_spec. now exists (c :: a), b. }
    destruct (split sep (c :: s)) as [|q qs] eqn:Hs; [destruct Hin |].
    pose proof (split_hd_prefix _ _ _ _ Hs) as Hq.
    cbn [split] in Hs. destruct (c =? sep)%N.
    + inversion Hs; subst. destruct Hin as [<-|Hin]; [reflexivity |].
      now apply Hlater.
    + destruct (split sep s) as [|q' qs'] eqn:Hs'.
      * pose proof (split_length sep s) as Hl. rewrite Hs' in Hl. discriminate.
      * inversion Hs; subst. destruct Hin as [<-|Hin].
        -- cbn [includes]. now rewrite Hq.
        -- apply Hlater. now right.
Qed.

Lemma hd_in_split sep s : In (hd [] (split sep s)) (split sep s).
Proof.
  destruct (split sep s) as [|p ps] eqn:Hs; [| now left].
  pose proof (split_length sep s) as Hl. rewrite Hs in Hl. discriminate.
Qed.

Lemma last_in_split sep s : In (last (split sep s) []) (split sep s).
Proof.
  destruct (split sep s) as [|p ps] eqn:Hs.
  - pose proof (split_length sep s) as Hl. rewrite Hs in Hl. discriminate.
  - destruct (exists_last (l := p :: ps)) as (body & z & ->); [discriminate |].
    rewrite last_last. apply in_or_app. right. now left.
Qed.

(** X8. An entry text that contains the name as written always passes
    the name test, however many parts the name has. *)
Theorem whole_name_matches (text name : jsstring) :
  includes text name = true -> nameMatches text name = true.
Proof.
  intros Hin. unfold nameMatches.
  destruct (2 <=? length (split SPACE name))%nat; [| exact Hin].
  apply andb_true_iff. split; apply (includes_trans _ _ _ Hin);
    apply (split_piece_included SPACE).
  - apply last_in_split.
  - apply hd_in_split.
Qed.

Lemma whole_name_matches_witness :
  includes (js "dr. Ana Marija Anic (FER)") (js "Ana Marija Anic") = true
  /\ nameMatches (js "dr. Ana Marija Anic (FER)") (js "Ana Marija Anic") = true.
Proof.
  split; [reflexivity |]. apply whole_name_matches. reflexivity.
Defined.

(** X9. Of a name with a space only the part before the first space
    and the part after the last space are looked for; what stands
    between them is ignored.  A name without a space is looked for as a
    whole. *)
Theorem name_test_outer_parts :
  (forall text firstName middle lastName : jsstring,
      forallb (fun c => negb (c =? SPACE)%N) firstName = true ->
      forallb (fun c => negb (c =? SPACE)%N) lastName = true ->
      nameMatches text (firstName ++ [SPACE] ++ middle ++ [SPACE] ++ lastName)
      = includes text lastName && includes text firstName)
  /\ (forall text name : jsstring,
        forallb (fun c => negb (c =? SPACE)%N) name = true ->
        nameMatches text name = includes text name).
Proof.
  split.
  - intros text firstName middle lastName Hf Hl. unfold nameMatches.
    cbn [app]. rewrite (split_app _ _ _ Hf), split_app_sep, (split_none _ _ Hl).
    cbn [hd]. destruct (split SPACE middle) as [|m ms] eqn:Hm.
    + pose proof (split_length SPACE middle) as Hlen. rewrite Hm in Hlen.
      discriminate.
    + change (firstName :: (m :: ms) ++ [lastName])
        with ((firstName :: m :: ms) ++ [lastName]).
      rewrite last_last, length_app. cbn [length].
      destruct (2 <=? S (S (length ms)) + 1)%nat eqn:Hlen; [reflexivity |].
      apply Nat.leb_gt in Hlen. lia.
  - intros text name Hn. unfold nameMatches.
    now rewrite (split_none _ _ Hn).
Qed.

Lemma name_test_outer_parts_witness :
  nameMatches (js "Anic, Ana") (js "Ana" ++ [SPACE] ++ js "Marija" ++ [SPACE] ++ js "Anic")
  = includes (js "Anic, Ana") (js "Anic") && includes (js "Anic, Ana") (js "Ana")
  /\ nameMatches (js "Anic, Ana") (js "Anic") = includes (js "Anic, Ana") (js "Anic").
Proof.
  split.
  - apply (proj1 name_test_outer_parts); reflexivity.
  - apply (proj2 name_test_outer_parts); reflexivity.
Defined.

(* ================================================================== *)
(** * The document tree: listed elements are where their paths say      *)
(* ================================================================== *)

Lemma Node_ind_kids (P : Node -> Prop) :
  (forall d, P (Text d)) ->
  (forall a kids, Forall P kids -> P (Elem a kids)) ->
  forall n, P n.
Proof.
  intros HText HElem. fix IH 1. intros [d|a kids]; [apply HText |].
  apply HElem. induction kids as [|k kids IHkids]; constructor;
    [apply IH | exact IHkids].
Qed.

Lemma belowFrom_in ks : forall i p x,
  In (p, x) (belowFrom i ks) ->
  exists j k p', p = (i + j)%nat :: p' /\ nth_error ks j = Some k
                 /\ In (p', x) (elements k).
Proof.
  induction ks as [|k ks IH]; intros i p x Hin; [destruct Hin |].
  cbn [belowFrom] in Hin. apply in_app_or in Hin as [Hin|Hin].
  - apply in_map_iff in Hin as ([p' x'] & Heq & Hin). inversion Heq; subst.
    exists 0%nat, k, p'. cbn. rewrite Nat.add_0_r. now repeat split.
  - destruct (IH _ _ _ Hin) as (j & k' & p' & -> & Hnth & Hk).
    exists (S j), k', p'. cbn. rewrite Nat.add_succ_r. now repeat split.
Qed.

(** An element listed by [elements] is the node at its path. *)
Lemma elements_nodeAt n : forall p x,
  In (p, x) (elements n) -> nodeAt n p = Some x.
Proof.
  induction n as [d | a kids IH] using Node_ind_kids; intros p x Hin.
  - destruct Hin.
  - change (elements (Elem a kids))
      with (([], Elem a kids) :: belowFrom 0 kids) in Hin.
    destruct Hin as [Heq|Hin]; [now inversion Heq |].
    apply belowFrom_in in Hin as (j & k & p' & -> & Hnth & Hk).
    cbn [nodeAt childNodes Nat.add]. rewrite Hnth.
    rewrite Forall_forall in IH. apply IH; [| exact Hk].
    now apply nth_error_In in Hnth.
Qed.

Lemma nodeAt_app doc p q n :
  nodeAt doc p = Some n -> nodeAt doc (p ++ q) = nodeAt n q.
Proof.
  revert doc. induction p as [|i p IH]; intros doc Hp; cbn in *.
  - now inversion Hp.
  - destruct (nth_error (childNodes doc) i); [now apply IH | discriminate].
Qed.

Lemma hd_error_filter_some {A} (f : A -> bool) l x :
  hd_error (filter f l) = Some x -> In x l /\ f x = true.
Proof.
  intros Hhd. assert (Hin : In x (filter f l)).
  { destruct (filter f l); inversion Hhd. now left. }
  now apply filter_In in Hin.
Qed.

Lemma querySelectorAll_nodeAt sel n q x :
  In (q, x) (querySelectorAll sel n) -> nodeAt n q = Some x /\ sel x = true.
Proof.
  unfold querySelectorAll, descendants. intros Hin.
  apply filter_In in Hin as [Hin Hsel]. split; [| exact Hsel].
  apply elements_nodeAt. destruct (elements n); [destruct Hin | now right].
Qed.

Lemma querySelector_nodeAt sel n q x :
  querySelector sel n = Some (q, x) -> nodeAt n q = Some x /\ sel x = true.
Proof.
  unfold querySelector. intros Hq. apply (querySelectorAll_nodeAt sel).
  destruct (querySelectorAll sel n); inversion Hq. now left.
Qed.

Lemma getElementById_nodeAt doc i p x :
  getElementById doc i = Some (p, x) -> nodeAt doc p = Some x /\ hasId i x = true.
Proof.
  unfold getElementById. intros Hg.
  apply hd_error_filter_some in Hg as [Hin Hid]. split; [| exact Hid].
  now apply elements_nodeAt.
Qed.



Lemma firstAddControl_some pattern divs c :
  firstAddControl pattern divs = Some c ->
  exists q div q' n,
    In (q, div) divs /\ includes (textContent div) pattern = true
    /\ querySelector selAddControl div = Some (q', n) /\ c = q ++ q'.
Proof.
  induction divs as [|[q div] rest IH]; [discriminate |].
  cbn [firstAddControl]. intros Hc.
  assert (Hrest : firstAddControl pattern rest = Some c ->
            exists q0 div0 q' n,
              In (q0, div0) ((q, div) :: rest)
              /\ includes (textContent div0) pattern = true
              /\ querySelector selAddControl div0 = Some (q', n)
              /\ c = q0 ++ q').
  { intros Hr. destruct (IH Hr) as (q0 & div0 & q' & n & Hin & Hrest).
    exists q0, div0, q', n. split; [now right | exact Hrest]. }
  destruct (includes (textContent div) pattern) eqn:Htext; [| now apply Hrest].
  destruct (querySelector selAddControl div) as [[q' n]|] eqn:Hq;
    [| now apply Hrest].
  inversion Hc; subst. exists q, div, q', n. repeat split; try assumption.
  now left.
Qed.

(** X10. A handle returned by the locator is a valid reference into the
    document it was computed from: it leads to a [span] with the class
    of the add control, below a [div] of the editor whose text contains
    the slot pattern. *)
Theorem located_handle_is_add_control (doc : Node) (event : Event) (c : Path) :
  findMatchingDiv doc event = Some c ->
  exists p editor q div q' n,
    c = p ++ q ++ q'
    /\ nodeAt doc p = Some editor /\ hasId "editor" editor = true
    /\ nodeAt doc (p ++ q) = Some div /\ selDiv div = true
    /\ includes (textContent div) (slotPattern event) = true
    /\ nodeAt doc c = Some n /\ selAddControl n = true.
Proof.
  unfold findMatchingDiv.
  destruct (getElementById doc "editor") as [[p editor]|] eqn:Hed;
    [| discriminate].
  destruct (firstAddControl (slotPattern event) (querySelectorAll selDiv editor))
    as [c'|] eqn:Hfirst; [| discriminate].
  intros Hc. inversion Hc; subst.
  apply firstAddControl_some in Hfirst as (q & div & q' & n & Hin & Htext & Hq & ->).
  apply getElementById_nodeAt in Hed as [Hp Hid].
  apply querySelectorAll_nodeAt in Hin as [Hdiv Hsel].
  apply querySelector_nodeAt in Hq as [Hn Hadd].
  assert (Hpq : nodeAt doc (p ++ q) = Some div)
    by now rewrite (nodeAt_app _ _ _ _ Hp).
  exists p, editor, q, div, q', n. repeat split; try assumption.
  now rewrite app_assoc, (nodeAt_app _ _ _ _ Hpq).
Qed.

Lemma located_handle_is_add_control_witness :
  findMatchingDiv twoRowDocument anaEvent = Some [0; 1; 1]%nat
  /\ exists n, nodeAt twoRowDocument [0; 1; 1]%nat = Some n
               /\ selAddControl n = true.
Proof.
  split; [reflexivity |].
  destruct (located_handle_is_add_control twoRowDocument anaEvent
              [0; 1; 1]%nat eq_refl)
    as (_ & _ & _ & _ & _ & n & _ & _ & _ & _ & _ & _ & Hn & Hadd).
  now exists n.
Defined.

Lemma firstCandidate_find name divs :
  firstCandidate name divs
  = option_map fst
      (find (fun x => nameMatches (textContent (snd x)) name) divs).
Proof.
  induction divs as [|[q div] rest IH]; [reflexivity |].
  cbn [firstCandidate find snd]. rewrite IH.
  now destruct (nameMatches (textContent div) name).
Qed.

(** X11. The person finder returns the first candidate entry of the
    dialog, in document order, whose text passes the name test: the
    handle leads to such a [div] of the document, and not-found means
    that the dialog is missing or none of its candidate entries passes
    the test. *)
Theorem person_finder_first_match (doc : Node) (name : jsstring) :
  (forall c, findPersonInDialog doc name = Some c ->
     exists n, nodeAt doc c = Some n /\ selCandidate n = true
               /\ nameMatches (textContent n) name = true)
  /\ (findPersonInDialog doc name = None ->
      forall p dialog q div,
        getElementById doc "editorDialog" = Some (p, dialog) ->
        In (q, div) (querySelectorAll selCandidate dialog) ->
        nameMatches (textContent div) name = false)
  /\ (forall p dialog,
        getElementById doc "editorDialog" = Some (p, dialog) ->
        findPersonInDialog doc name
        = option_map (fun x => p ++ fst x)
            (find (fun x => nameMatches (textContent (snd x)) name)
                  (querySelectorAll selCandidate dialog))).
Proof.
  unfold findPersonInDialog.
  destruct (getElementById doc "editorDialog") as [[p dialog]|] eqn:Hd.
  2:{ repeat split; intros; discriminate. }
  rewrite firstCandidate_find.
  set (passes := fun x : Path * Node => nameMatches (textContent (snd x)) name).
  destruct (find passes (querySelectorAll selCandidate dialog)) as [[q div]|]
    eqn:Hf; cbn [option_map fst].
  - pose proof (find_some _ _ Hf) as [Hin Hpass]. unfold passes in Hpass.
    cbn [snd] in Hpass.
    apply getElementById_nodeAt in Hd as [Hp _].
    apply querySelectorAll_nodeAt in Hin as [Hq Hsel].
    split; [| split].
    + intros c Hc. inversion Hc; subst. exists div.
      rewrite (nodeAt_app _ _ _ _ Hp). repeat split; assumption.
    + discriminate.
    + intros p' dialog' Heq. inversion Heq; subst. now rewrite Hf.
  - split; [| split].
    + discriminate.
    + intros _ p' dialog' q div Heq Hin. inversion Heq; subst.
      exact (find_none _ _ Hf _ Hin).
    + intros p' dialog' Heq. inversion Heq; subst. now rewrite Hf.
Qed.

Lemma person_finder_first_match_witness :
  findPersonInDialog (pageDocument startPage) (js "Ana Anic")
  = Some candidateEntry
  /\ exists n, nodeAt (pageDocument startPage) candidateEntry = Some n
               /\ selCandidate n = true
               /\ nameMatches (textContent n) (js "Ana Anic") = true.
Proof.
  split; [reflexivity |].
  apply (proj1 (person_finder_first_match (pageDocument startPage)
                  (js "Ana Anic"))).
  reflexivity.
Defined.

(* ================================================================== *)
(** * The assignment checker: which list is read                        *)
(* ================================================================== *)

Lemma checkSiblings_skip name pre rest :
  (forall x, In x pre -> querySelector selAssignedList x = None) ->
  checkSiblings name (pre ++ rest) = checkSiblings name rest.
Proof.
  induction pre as [|x pre IH]; intros Hnone; [reflexivity |].
  cbn [app checkSiblings]. rewrite (Hnone x) by now left.
  apply IH. intros y Hy. apply Hnone. now right.
Qed.

(** X12. The assignment checker reads one list only: the assigned list
    of the first following sibling that has one.  Siblings after it are
    never consulted, and without such a sibling the answer is "not
    assigned". *)
Theorem checker_reads_first_list (doc : Node) (dodajSpan parentDiv : Path)
    (d : Node) (name : jsstring) :
  closest doc selDiv dodajSpan = Some (parentDiv, d) ->
  (forall pre s post q ul,
      nextElementSiblings doc parentDiv = pre ++ s :: post ->
      (forall x, In x pre -> querySelector selAssignedList x = None) ->
      querySelector selAssignedList s = Some (q, ul) ->
      isPersonAlreadyAssigned doc dodajSpan name
      = existsb (fun li => nameMatches (textContent (snd li)) name)
                (querySelectorAll selLi ul))
  /\ ((forall x, In x (nextElementSiblings doc parentDiv) ->
                 querySelector selAssignedList x = None) ->
      isPersonAlreadyAssigned doc dodajSpan name = false).
Proof.
  intros Hclosest. unfold isPersonAlreadyAssigned. rewrite Hclosest. split.
  - intros pre s post q ul Hsib Hpre Hs.
    rewrite Hsib, (checkSiblings_skip _ _ _ Hpre). cbn [checkSiblings].
    now rewrite Hs.
  - intros Hnone.
    rewrite <- (app_nil_r (nextElementSiblings doc parentDiv)).
    now rewrite (checkSiblings_skip _ _ _ Hnone).
Qed.

Lemma checker_reads_first_list_witness :
  exists d pre s post q ul,
    closest twoListDocument selDiv addControl = Some ([0; 0]%nat, d)
    /\ nextElementSiblings twoListDocument [0; 0]%nat = pre ++ s :: post
    /\ (forall x, In x pre -> querySelector selAssignedList x = None)
    /\ querySelector selAssignedList s = Some (q, ul)
    /\ post <> []
    /\ isPersonAlreadyAssigned twoListDocument addControl (js "Ana Anic")
       = existsb (fun li => nameMatches (textContent (snd li)) (js "Ana Anic"))
                 (querySelectorAll selLi ul)
    /\ isPersonAlreadyAssigned twoListDocument addControl (js "Ana Anic")
       = false.
Proof.
  destruct (closest twoListDocument selDiv addControl) as [[pd d]|] eqn:Hc;
    [| discriminate].
  assert (Hpd : pd = [0; 0]%nat) by (vm_compute in Hc; now inversion Hc).
  subst pd.
  destruct (nextElementSiblings twoListDocument [0; 0]%nat)
    as [|x1 [|x2 post]] eqn:Hsib; try discriminate.
  destruct (querySelector selAssignedList x2) as [[q ul]|] eqn:Hq.
  2:{ vm_compute in Hsib. inversion Hsib; subst. discriminate. }
  assert (Hpre : forall x, In x [x1] -> querySelector selAssignedList x = None).
  { intros x [<-|[]]. vm_compute in Hsib. now inversion Hsib. }
  exists d, [x1], x2, post, q, ul.
  split; [reflexivity |]. split; [reflexivity |]. split; [exact Hpre |].
  split; [exact Hq |].
  split; [vm_compute in Hsib; inversion Hsib; discriminate |].
  split; [| reflexivity].
  apply (proj1 (checker_reads_first_list twoListDocument addControl
                  [0; 0]%nat d (js "Ana Anic") Hc) [x1] x2 post q ul);
    [exact Hsib | exact Hpre | exact Hq].
Defined.

(* ================================================================== *)
(** * The two waits                                                     *)
(* ================================================================== *)

Section Waits.

Context {H : Host}.
Hypothesis progress : timersProgress H.

Lemma polls_now k : forall w,
  (now w + pollInterval * Z.of_nat k <= now (polls k w))%Z.
Proof.
  unfold pollInterval. induction k as [|k IH]; intros w; cbn [polls]; [lia |].
  pose proof (IH (elapse pollInterval w)) as Hk.
  pose proof (progress pollInterval w) as Hp. unfold pollInterval in *. lia.
Qed.

(** What a wait returns: it stops at the first poll at which the test
    holds or which is later than the timeout, the test deciding first. *)
Lemma pollUntil_contract test message timeout start fuel :
  forall w,
    (0 <= timeout - (now w - start) < pollInterval * Z.of_nat fuel)%Z ->
    exists n r,
      (1 <= n <= fuel)%nat
      /\ pollUntil test message fuel timeout start w = Ret (r, polls n w)
      /\ (forall k, (1 <= k < n)%nat ->
            test (document (polls k w)) = false
            /\ (now (polls k w) - start <= timeout)%Z)
      /\ ((r = Resolved /\ test (document (polls n w)) = true)
          \/ (r = Rejected message
              /\ test (document (polls n w)) = false
              /\ (now (polls n w) - start > timeout)%Z)).
Proof.
  unfold pollInterval.
  induction fuel as [|fuel IH]; intros w Hleft; [lia |].
  cbn [pollUntil].
  destruct (test (document (elapse pollInterval w))) eqn:Htest.
  { exists 1%nat, Resolved. cbn [polls]. repeat split; try lia.
    now left. }
  destruct (Z.gtb_spec (now (elapse pollInterval w) - start) timeout)
    as [Hlate|Hearly].
  { exists 1%nat, (Rejected message). cbn [polls]. repeat split; try lia.
    right. repeat split; [assumption | lia]. }
  destruct (IH (elapse pollInterval w)) as (n & r & Hn & Hrun & Hbefore & Hend).
  { pose proof (progress pollInterval w) as Hp. unfold pollInterval in *. lia. }
  exists (S n), r. cbn [polls]. repeat split; try lia; try assumption.
  - destruct k as [|[|k]]; [lia | exact Htest |].
    cbn [polls]. apply (Hbefore (S k)). lia.
  - destruct k as [|[|k]]; [lia | cbn [polls]; lia |].
    cbn [polls]. apply (Hbefore (S k)). lia.
Qed.

Lemma wait_contract test message fuel w :
  (51 <= fuel)%nat ->
  exists n r,
    (1 <= n <= 51)%nat
    /\ pollUntil test message fuel defaultTimeout (now w) w = Ret (r, polls n w)
    /\ (forall k, (1 <= k < n)%nat -> test (document (polls k w)) = false)
    /\ (now w + pollInterval * Z.of_nat n <= now (polls n w))%Z
    /\ ((r = Resolved /\ test (document (polls n w)) = true)
        \/ (r = Rejected message
            /\ test (document (polls n w)) = false
            /\ (now (polls n w) - now w > defaultTimeout)%Z)).
Proof.
  intros Hfuel.
  destruct (pollUntil_contract test message defaultTimeout (now w) fuel w)
    as (n & r & Hn & Hrun & Hbefore & Hend).
  { unfold defaultTimeout, pollInterval. lia. }
  exists n, r. repeat split; try assumption; try lia.
  - destruct (Nat.le_gt_cases n 51) as [Hle|Hgt]; [exact Hle |].
    destruct (Hbefore 51%nat) as [_ Htime]; [lia |].
    pose proof (polls_now 51 w) as Hnow.
    unfold defaultTimeout, pollInterval in *. lia.
  - intros k Hk. now apply Hbefore.
  - apply polls_now.
Qed.

End Waits.

(** X13. With timers that do not fire early, [waitForDialog] settles
    within 51 polls and never before one poll interval has passed.  It
    resolves at the first poll that sees the dialog present and visible;
    it rejects, with the message "Dialog timeout", only at a poll made
    more than 5000 ms after the start at which the dialog is still not
    visible. *)
Theorem waitForDialog_contract (H : Host) (fuel : nat) (w : World) :
  timersProgress H -> (51 <= fuel)%nat ->
  exists n r,
    (1 <= n <= 51)%nat
    /\ waitForDialog fuel defaultTimeout w = Ret (r, polls n w)
    /\ (forall k, (1 <= k < n)%nat ->
                  dialogVisible (document (polls k w)) = false)
    /\ (now w + pollInterval * Z.of_nat n <= now (polls n w))%Z
    /\ ((r = Resolved /\ dialogVisible (document (polls n w)) = true)
        \/ (r = Rejected (js "Dialog timeout")
            /\ dialogVisible (document (polls n w)) = false
            /\ (now (polls n w) - now w > defaultTimeout)%Z)).
Proof.
  intros Hprog Hfuel. unfold waitForDialog. rewrite pollOpen_pollUntil.
  now apply wait_contract.
Qed.

Lemma waitForDialog_contract_witness :
  let H := modelPage (Some 250%Z) in
  let w := @click H addControl startPage in
  timersProgress H /\ (51 <= 60)%nat
  /\ exists n r,
      (1 <= n <= 51)%nat
      /\ @waitForDialog H 60 defaultTimeout w = Ret (r, polls n w)
      /\ ((r = Resolved /\ dialogVisible (@document H (polls n w)) = true)
          \/ (r = Rejected (js "Dialog timeout")
              /\ dialogVisible (@document H (polls n w)) = false
              /\ (@now H (polls n w) - @now H w > defaultTimeout)%Z)).
Proof.
  intros H w. split; [apply modelPage_progress |]. split; [lia |].
  destruct (waitForDialog_contract H 60 w (modelPage_progress _))
    as (n & r & Hn & Hrun & _ & _ & Hend); [lia |].
  now exists n, r.
Defined.

(** X14. With timers that do not fire early, [waitForDialogClose]
    settles within 51 polls.  It resolves at the first poll at which the
    dialog element is gone or it or its [.ui-dialog] wrapper is hidden;
    it rejects, with the message "Dialog close timeout", only at a poll
    made more than 5000 ms after the start at which the dialog is still
    open. *)
Theorem waitForDialogClose_contract (H : Host) (fuel : nat) (w : World) :
  timersProgress H -> (51 <= fuel)%nat ->
  exists n r,
    (1 <= n <= 51)%nat
    /\ waitForDialogClose fuel defaultTimeout w = Ret (r, polls n w)
    /\ (forall k, (1 <= k < n)%nat ->
                  dialogClosed (document (polls k w)) = false)
    /\ (now w + pollInterval * Z.of_nat n <= now (polls n w))%Z
    /\ ((r = Resolved /\ dialogClosed (document (polls n w)) = true)
        \/ (r = Rejected (js "Dialog close timeout")
            /\ dialogClosed (document (polls n w)) = false
            /\ (now (polls n w) - now w > defaultTimeout)%Z)).
Proof.
  intros Hprog Hfuel. unfold waitForDialogClose. rewrite pollClose_pollUntil.
  now apply wait_contract.
Qed.

Lemma waitForDialogClose_contract_witness :
  let H := modelPage (Some 250%Z) in
  timersProgress H /\ (51 <= 60)%nat
  /\ exists n r,
      (1 <= n <= 51)%nat
      /\ @waitForDialogClose H 60 defaultTimeout startPage
         = Ret (r, polls n startPage)
      /\ ((r = Resolved /\ dialogClosed (@document H (polls n startPage)) = true)
          \/ (r = Rejected (js "Dialog close timeout")
              /\ dialogClosed (@document H (polls n startPage)) = false
              /\ (@now H (polls n startPage) - @now H startPage
                  > defaultTimeout)%Z)).
Proof.
  intros H. split; [apply modelPage_progress |]. split; [lia |].
  destruct (waitForDialogClose_contract H 60 startPage (modelPage_progress _))
    as (n & r & Hn & Hrun & _ & _ & Hend); [lia |].
  now exists n, r.
Defined.

(* ================================================================== *)
(** * The batch processor: what every returned run satisfies            *)
(* ================================================================== *)



(** X17. A run clicks at most two elements for each event: the add
    control, and then the candidate or the close button. *)
Theorem at_most_two_clicks_per_event (H : Host) (fuel : nat)
    (events : list Event) (w : World) (st : State) :
  processEvents fuel events w = Ret st ->
  (countClicks (calls st) <= 2 * length events)%nat.
Proof.
  unfold processEvents. intros Hrun.
  apply processLoop_ret in Hrun as (_ & extra & _ & _ & Hcalls & Hc & _).
  cbn [calls app] in Hcalls. now rewrite Hcalls.
Qed.



Lemma at_most_two_clicks_per_event_witness :
  exists st,
    @processEvents (modelPage (Some 50%Z)) 51 [anaEvent] startPage = Ret st
    /\ countClicks (calls st) = 2%nat
    /\ (countClicks (calls st) <= 2 * length [anaEvent])%nat.
Proof.
  eexists.
  assert (Hrun : @processEvents (modelPage (Some 50%Z)) 51 [anaEvent]
                   startPage = Ret _) by (vm_compute; reflexivity).
  split; [exact Hrun |]. split; [reflexivity |].
  exact (at_most_two_clicks_per_event _ _ _ _ _ Hrun).
Defined.




Section DryRuns.

Context {H : Host}.

Lemma processEvent_nothing_to_do fuel event st :
  nothingToDo (document (world st)) event = true ->
  exists st1 extra,
    processEvent fuel event st = Ret st1
    /\ world st1 = world st
    /\ calls st1 = calls st ++ extra
    /\ forallb readsOnly extra = true
    /\ success (results st1) = success (results st)
    /\ personNotFound (results st1) = personNotFound (results st)
    /\ errors (results st1) = errors (results st)
    /\ total (results st1) = S (total (results st)).
Proof.
  unfold nothingToDo, processEvent.
  destruct (findMatchingDiv (document (world st)) event) as [btn|].
  - intros ->. eexists. exists [Locate event; CheckAssigned btn].
    cbn [world calls results]. rewrite <- app_assoc.
    repeat split.
    unfold total. cbn. rewrite length_app. cbn. lia.
  - intros _. eexists. exists [Locate event]. cbn [world calls results].
    repeat split.
    unfold total. cbn. rewrite length_app. cbn. lia.
Qed.

Lemma processLoop_nothing_to_do fuel events :
  forall st,
    forallb (nothingToDo (document (world st))) events = true ->
    exists st' extra,
      processLoop fuel events st = Ret st'
      /\ world st' = world st
      /\ calls st' = calls st ++ extra
      /\ forallb readsOnly extra = true
      /\ success (results st') = success (results st)
      /\ personNotFound (results st') = personNotFound (results st)
      /\ errors (results st') = errors (results st)
      /\ total (results st') = (total (results st) + length events)%nat.
Proof.
  induction events as [|event rest IH]; intros st Hall.
  - exists st, []. cbn. rewrite app_nil_r. repeat split. lia.
  - cbn [forallb] in Hall. apply andb_true_iff in Hall as [Hev Hrest].
    destruct (processEvent_nothing_to_do fuel event st Hev)
      as (st1 & extra1 & Hrun1 & Hw1 & Hc1 & Hr1 & Hs1 & Hp1 & He1 & Ht1).
    destruct (IH st1) as (st' & extra & Hrun & Hw & Hc & Hr & Hs & Hp & He & Ht).
    { now rewrite Hw1. }
    exists st', (extra1 ++ extra). cbn [processLoop]. rewrite Hrun1.
    cbn [bind length]. repeat split; try congruence.
    + now rewrite Hc, Hc1, app_assoc.
    + now rewrite forallb_app, Hr1, Hr.
    + lia.
Qed.

End DryRuns.

(** X18. A batch in which every event is either without a slot on the
    page or already assigned leaves the page as it was: the run
    returns, with any fuel and on any page, after reading the document
    only (no click, no wait, no delay), and with every event listed
    under slot-not-found or already-assigned. *)
Theorem settled_batch_leaves_page_alone (H : Host) (fuel : nat)
    (events : list Event) (w : World) :
  forallb (nothingToDo (document w)) events = true ->
  exists st,
    processEvents fuel events w = Ret st
    /\ world st = w
    /\ forallb readsOnly (calls st) = true
    /\ success (results st) = []
    /\ personNotFound (results st) = []
    /\ errors (results st) = []
    /\ (length (alreadyAssigned (results st))
        + length (slotNotFound (results st)) = length events)%nat.
Proof.
  intros Hall. unfold processEvents.
  destruct (processLoop_nothing_to_do fuel events (mkState w noResults []) Hall)
    as (st & extra & Hrun & Hw & Hc & Hr & Hs & Hp & He & Ht).
  exists st. cbn [world calls results app] in *.
  repeat split; try assumption.
  - now rewrite Hc.
  - unfold total in Ht. rewrite Hs, Hp, He in Ht. cbn in Ht. lia.
Qed.

Lemma settled_batch_leaves_page_alone_witness :
  let w := mkPage 0 None true in
  forallb (nothingToDo (pageDocument w)) [anaEvent; otherRoomEvent] = true
  /\ exists st,
      @processEvents (modelPage (Some 50%Z)) 0 [anaEvent; otherRoomEvent] w
      = Ret st
      /\ world st = w
      /\ forallb readsOnly (calls st) = true.
Proof.
  intros w. split; [reflexivity |].
  destruct (settled_batch_leaves_page_alone (modelPage (Some 50%Z)) 0
              [anaEvent; otherRoomEvent] w eq_refl)
    as (st & Hrun & Hw & Hc & _).
  now exists st.
Defined.




(* ================================================================== *)
(** * The process button and its report                                 *)
(* ================================================================== *)

Lemma trim_not_blank s : forallb is_space s = false -> truthy (trim s) = true.
Proof.
  intros Hs. unfold trim.
  destruct (drop_while is_space s) as [|c t] eqn:Hd.
  - apply drop_while_nil_all in Hd. congruence.
  - assert (Hc : is_space c = false).
    { clear Hs. revert Hd. induction s as [|x s IH]; cbn; [discriminate |].
      destruct (is_space x) eqn:Hx; [exact IH |].
      intros Heq. now inversion Heq; subst. }
    cbn [rev]. rewrite (drop_while_app_stop _ _ _ _ Hc).
    rewrite rev_app_distr. reflexivity.
Qed.










(** X20. Unless the input holds a tab, pressing the button starts no
    run and touches nothing on the page: it only alerts, "Please paste
    schedule data first!" for an input of white space and "No valid
    events found in input!" for any other. *)
Theorem button_without_tab_only_alerts (H : Host) (fuel : nat)
    (input : jsstring) (w : World) :
  tabs input = 0%nat ->
  processClick fuel input w
  = Ret (if forallb is_space input
         then js "Please paste schedule data first!"
         else js "No valid events found in input!", None).
Proof.
  intros Htabs. unfold processClick.
  destruct (forallb is_space input) eqn:Hblank.
  - now rewrite (trim_all_space _ Hblank).
  - rewrite (trim_not_blank _ Hblank). cbn [negb].
    rewrite parseSchedule_allEvents. cbn [bind].
    pose proof (allEvents_length input) as Hlen. rewrite Htabs in Hlen.
    destruct (allEvents input); [reflexivity | cbn in Hlen; lia].
Qed.

Lemma button_without_tab_only_alerts_witness :
  tabs (js "2024-03-10|09:00|10:00|A1 Ana Anic") = 0%nat
  /\ @processClick (modelPage (Some 50%Z)) 51
       (js "2024-03-10|09:00|10:00|A1 Ana Anic") startPage
     = Ret (js "No valid events found in input!", None).
Proof.
  split; [reflexivity |].
  apply (button_without_tab_only_alerts (modelPage (Some 50%Z)) 51
           (js "2024-03-10|09:00|10:00|A1 Ana Anic") startPage).
  reflexivity.
Defined.



(* ================================================================== *)
(** * The title script: adding and removing the host name               *)
(* ================================================================== *)

Lemma starts_with_refl s : starts_with s s = true.
Proof. apply starts_with_spec. exists []. now rewrite app_nil_r. Qed.

Lemma jsstring_eqb_eq a b : jsstring_eqb a b = true <-> a = b.
Proof.
  unfold jsstring_eqb. rewrite andb_true_iff, Nat.eqb_eq, starts_with_spec.
  split.
  - intros [Hlen [t ->]]. rewrite length_app in Hlen.
    destruct t; [now rewrite app_nil_r | cbn in Hlen; lia].
  - intros ->. split; [reflexivity |]. exists []. now rewrite app_nil_r.
Qed.

Lemma suffix_empty : suffix = [].
Proof. reflexivity. Qed.

Lemma slice_tail (a b : jsstring) :
  slice (a ++ b) (Z.of_nat (length a)) (Z.of_nat (length (a ++ b))) = b.
Proof.
  unfold slice, sliceIndex. rewrite length_app.
  destruct (Z.ltb_spec (Z.of_nat (length a)) 0); [lia |].
  destruct (Z.ltb_spec (Z.of_nat (length a + length b)) 0); [lia |].
  rewrite Z.min_l by lia. rewrite Z.min_id.
  destruct (Z.ltb_spec (Z.of_nat (length a)) (Z.of_nat (length a + length b)))
    as [Hlt|Hge].
  - rewrite Nat2Z.id, skipn_app, skipn_all, Nat.sub_diag. cbn [skipn app].
    replace (Z.to_nat (Z.of_nat (length a + length b) - Z.of_nat (length a)))
      with (length b) by lia.
    apply firstn_all.
  - destruct b; [reflexivity | cbn [length] in Hge; lia].
Qed.

Lemma containsAffixes_prefixed hostname t :
  containsAffixes hostname (prefix hostname ++ t ++ suffix) = true.
Proof.
  unfold containsAffixes. rewrite suffix_empty, app_nil_r.
  replace (starts_with (prefix hostname) (prefix hostname ++ t)) with true
    by (symmetry; apply starts_with_spec; now exists t).
  reflexivity.
Qed.

Lemma removeAffixes_prefixed hostname t :
  removeAffixes hostname (prefix hostname ++ t ++ suffix) = t.
Proof.
  unfold removeAffixes. rewrite containsAffixes_prefixed.
  rewrite suffix_empty, app_nil_r. cbn [length]. rewrite Z.sub_0_r.
  apply slice_tail.
Qed.

(** X22. A title made of the prefix (host name and " - "), any text and
    the suffix is recognised as carrying the affixes, and removing them
    gives the text back. *)
Theorem title_affixes_round_trip (hostname t : jsstring) :
  containsAffixes hostname (prefix hostname ++ t ++ suffix) = true
  /\ removeAffixes hostname (prefix hostname ++ t ++ suffix) = t.
Proof.
  split; [apply containsAffixes_prefixed | apply removeAffixes_prefixed].
Qed.

Lemma drop_while_length p s : (length (drop_while p s) <= length s)%nat.
Proof.
  induction s as [|c s IH]; cbn; [lia |]. destruct (p c); cbn; lia.
Qed.

Lemma trim_length s : (length (trim s) <= length s)%nat.
Proof.
  unfold trim. rewrite length_rev.
  pose proof (drop_while_length is_space (rev (drop_while is_space s))) as H1.
  pose proof (drop_while_length is_space s) as H2.
  rewrite length_rev in H1. lia.
Qed.

(** X23. A title that is just the trimmed prefix (the host name and the
    dash, without the space after it) counts as carrying the affixes;
    removing them leaves the empty string, and the title without
    affixes is then the path of the page. *)
Theorem bare_prefix_title_gives_path (hostname pathname : jsstring) :
  let title := trim (prefix hostname ++ suffix) in
  containsAffixes hostname title = true
  /\ removeAffixes hostname title = []
  /\ getTitleWithoutAffixes hostname pathname title = pathname.
Proof.
  cbv zeta. set (title := trim (prefix hostname ++ suffix)).
  assert (Hc : containsAffixes hostname title = true).
  { unfold containsAffixes, consistsOnlyOfTrimmedAffix. fold title.
    replace (jsstring_eqb title title) with true
      by (symmetry; now apply jsstring_eqb_eq).
    apply orb_true_r. }
  assert (Hr : removeAffixes hostname title = []).
  { unfold removeAffixes. rewrite Hc. unfold slice, sliceIndex.
    rewrite suffix_empty. cbn [length]. rewrite Z.sub_0_r.
    assert (Hlen : (length title <= length (prefix hostname))%nat).
    { unfold title. rewrite suffix_empty, app_nil_r. apply trim_length. }
    destruct (Z.ltb_spec (Z.of_nat (length (prefix hostname))) 0); [lia |].
    destruct (Z.ltb_spec (Z.of_nat (length title)) 0); [lia |].
    rewrite Z.min_r by lia. rewrite Z.min_id.
    now rewrite Z.ltb_irrefl. }
  repeat split; try assumption.
  unfold getTitleWithoutAffixes. now rewrite Hr.
Qed.

(* ================================================================== *)
(** * The two dialog tests, and what a success stands for               *)
(* ================================================================== *)

(** X24. The two dialog tests never fail together: on a document on
    which the dialog is not present and visible, the test of the close
    wait holds. *)
Theorem not_visible_is_closed (doc : Node) :
  dialogVisible doc = false -> dialogClosed doc = true.
Proof.
  unfold dialogVisible, dialogClosed.
  destruct (getElementById doc "editorDialog") as [[p dialog]|];
    [| reflexivity].
  intros Hhidden. apply negb_false_iff in Hhidden. rewrite Hhidden.
  destruct (closest doc (hasClass "ui-dialog") p) as [[q parentDialog]|];
    [apply orb_true_r | reflexivity].
Qed.

Lemma not_visible_is_closed_witness :
  dialogVisible (pageDocument startPage) = false
  /\ dialogClosed (pageDocument startPage) = true.
Proof.
  split; [reflexivity |]. apply not_visible_is_closed. reflexivity.
Defined.

Section Success.

Context {H : Host}.

Lemma pollUntil_resolved_test test message timeout start fuel :
  forall w w',
    pollUntil test message fuel timeout start w = Ret (Resolved, w') ->
    test (document w') = true.
Proof.
  induction fuel as [|fuel IH]; intros w w' Hrun; [discriminate |].
  cbn [pollUntil] in Hrun.
  destruct (test (document (elapse pollInterval w))) eqn:Htest.
  - now inversion Hrun; subst.
  - destruct (now (elapse pollInterval w) - start >? timeout)%Z;
      [discriminate | now apply IH in Hrun].
Qed.

Lemma snoc_not_same {A} (l : list A) x : l ++ [x] <> l.
Proof.
  intros Heq. apply (f_equal (@length A)) in Heq.
  rewrite length_app in Heq. cbn in Heq. lia.
Qed.

End Success.

(** X25. No event is reported as a success by mistake: when a turn adds
    an event to [success], the slot was located and the person was not
    listed for it, the add control was clicked and the dialog was then
    seen present and visible, the person's entry was found in the
    dialog and clicked, and the dialog was then seen closed. *)
Theorem success_is_earned (H : Host) (fuel : nat) (event : Event)
    (st st' : State) :
  processEvent fuel event st = Ret st' ->
  success (results st') <> success (results st) ->
  exists btn w1 person w2,
    findMatchingDiv (document (world st)) event = Some btn
    /\ isPersonAlreadyAssigned (document (world st)) btn (name event) = false
    /\ waitForDialog fuel defaultTimeout (click btn (world st))
       = Ret (Resolved, w1)
    /\ dialogVisible (document w1) = true
    /\ findPersonInDialog (document (elapse 300 w1)) (name event) = Some person
    /\ waitForDialogClose fuel defaultTimeout (click person (elapse 300 w1))
       = Ret (Resolved, w2)
    /\ dialogClosed (document w2) = true
    /\ results st' = pushSuccess (describe event) (results st)
    /\ world st' = elapse 500 w2
    /\ filter isClick (calls st')
       = filter isClick (calls st) ++ [Click btn; Click person].
Proof.
  unfold processEvent.
  destruct (findMatchingDiv (document (world st)) event) as [btn|] eqn:Hfound.
  2:{ intros Hrun Hgrew; inversion Hrun; subst. now cbn in Hgrew. }
  destruct (isPersonAlreadyAssigned (document (world st)) btn (name event))
    eqn:Hfree.
  { intros Hrun Hgrew; inversion Hrun; subst. now cbn in Hgrew. }
  destruct (waitForDialog fuel defaultTimeout (click btn (world st)))
    as [[r w1]| |] eqn:Hopen; cbn [bind]; try discriminate.
  destruct r as [|m].
  2:{ intros Hrun Hgrew; inversion Hrun; subst. now cbn in Hgrew. }
  destruct (findPersonInDialog (document (elapse 300 w1)) (name event))
    as [person|] eqn:Hperson.
  2:{ destruct (findCloseButton (document (elapse 300 w1))) as [closeBtn|];
        [destruct (hasClickMethod (document (elapse 300 w1)) closeBtn) |];
        intros Hrun Hgrew; inversion Hrun; subst; now cbn in Hgrew. }
  destruct (waitForDialogClose fuel defaultTimeout
              (click person (elapse 300 w1)))
    as [[r w2]| |] eqn:Hclose; cbn [bind]; try discriminate.
  destruct r as [|m].
  2:{ intros Hrun Hgrew; inversion Hrun; subst. now cbn in Hgrew. }
  intros Hrun _. inversion Hrun; subst. cbn [results world calls].
  exists btn, w1, person, w2.
  assert (Hseen : dialogVisible (document w1) = true).
  { unfold waitForDialog in Hopen. rewrite pollOpen_pollUntil in Hopen.
    now apply pollUntil_resolved_test in Hopen. }
  assert (Hgone : dialogClosed (document w2) = true).
  { unfold waitForDialogClose in Hclose. rewrite pollClose_pollUntil in Hclose.
    now apply pollUntil_resolved_test in Hclose. }
  repeat split; try assumption; try reflexivity.
  rewrite !filter_app. cbn. now rewrite !app_nil_r, <- app_assoc.
Qed.

Lemma success_is_earned_witness :
  exists st' btn person,
    @processEvent (modelPage (Some 50%Z)) 51 anaEvent
      (@mkState (modelPage (Some 50%Z)) startPage noResults []) = Ret st'
    /\ success (results st') <> success noResults
    /\ findMatchingDiv (pageDocument startPage) anaEvent = Some btn
    /\ filter isClick (calls st') = [Click btn; Click person].
Proof.
  eexists.
  assert (Hrun : @processEvent (modelPage (Some 50%Z)) 51 anaEvent
                   (@mkState (modelPage (Some 50%Z)) startPage noResults []) = Ret _)
    by (vm_compute; reflexivity).
  destruct (success_is_earned _ _ _ _ _ Hrun)
    as (btn & w1 & person & w2 & Hfound & _ & _ & _ & _ & _ & _ & _ & _ & Hclicks);
    [discriminate |].
  exists btn, person. repeat split; try assumption. discriminate.
Defined.
